(** * Sia consensus: the diff engine of [modules/consensus/diffs.go]

    A shallow embedding of the functions of [diffs.go] (committing and
    reverting diffs, the delayed-output buckets, the current path, and
    [generateAndApplyDiff]) together with the properties the specification
    states about them.

    Go functions that mutate the bolt transaction or the consensus set and
    return an [error] become state-passing functions into [outcome]: a normal
    return carries the new state and the returned error ([None] for [nil]),
    a [panic] carries the panic value and no state. *)

From Stdlib Require Import NArith String Lia.
From stdpp Require Import base option list gmap.

Local Open Scope N_scope.

(** ** Values of the packages [types], [modules] and [build] *)

(** Identifiers ([types.BlockID], [types.SiacoinOutputID], ...) are 32-byte
    hashes, carried as the number they encode; [types.BlockHeight] is a
    [uint64]; [types.Currency] is a non-negative big integer. *)
Abbreviation BlockID := N (only parsing).
Abbreviation OutputID := N (only parsing).
Abbreviation BlockHeight := N (only parsing).
Abbreviation Currency := N (only parsing).
Abbreviation error := string (only parsing).

(** The payload types of package [types] are never inspected by the diff
    engine: they are an interface.  [ID] stands for the method [Block.ID()]
    and [Transactions] for the field of that name. *)
Class Types := {
  SiacoinOutput : Type;
  FileContract : Type;
  SiafundOutput : Type;
  Transaction : Type;
  Block : Type;
  ID : Block -> BlockID;
  Transactions : Block -> list Transaction
}.

(** [modules.DiffDirection] with its two values. *)
Inductive DiffDirection := DiffApply | DiffRevert.

#[global] Instance DiffDirection_eq_dec : EqDecision DiffDirection.
Proof. solve_decision. Defined.

Definition opposite (dir : DiffDirection) : DiffDirection :=
  match dir with DiffApply => DiffRevert | DiffRevert => DiffApply end.

(** Addition on [uint64] block heights wraps around. *)
Definition height_add (a b : BlockHeight) : BlockHeight := (a + b) mod 2 ^ 64.

(** A call either returns or panics. *)
Inductive outcome (A : Type) : Type :=
| Ret (a : A)
| Panic (e : error).
Arguments Ret {A} a.
Arguments Panic {A} e.

(** The error values declared at the top of [diffs.go]. *)
Definition errApplySiafundPoolDiffMismatch : error :=
  "committing a siafund pool diff with an invalid 'previous' field".
Definition errBadMaturityHeight : error :=
  "delayed siacoin output diff was submitted with illegal maturity height".
Definition errCreatingExistingUpcomingMap : error :=
  "creating an existing upcoming map".
Definition errDeletingNonEmptyDelayedMap : error :=
  "deleting a delayed siacoin output map that is not empty".
Definition errDiffsNotGenerated : error :=
  "applying diff set before generating errors".
Definition errInvalidSuccessor : error :=
  "generating diffs for a block that's an invalid successsor to the current block".
Definition errNegativePoolAdjustment : error :=
  "committing a siafund pool diff with a negative adjustment".
Definition errNonApplySiafundPoolDiff : error :=
  "commiting a siafund pool diff that doesn't have the 'apply' direction".
Definition errRevertSiafundPoolDiffMismatch : error :=
  "committing a siafund pool diff with an invalid 'adjusted' field".
Definition errWrongAppliedDiffSet : error :=
  "applying a diff set that isn't the current block".
Definition errWrongRevertDiffSet : error :=
  "reverting a diff set that isn't the current block".

(** Panic values of the storage accessors and of the Go runtime. *)
Definition errRepeatInsert : error := "inserting an item that is already in the database".
Definition errNilItem : error := "requested item does not exist".
Definition errIndexOutOfRange : error := "runtime error: index out of range".

(** ** Control flow shared by the functions below

    A Go function that works on a mutable state [St] and returns an [error]. *)
Definition stfn (St : Type) : Type := St -> outcome (St * option error).

(** [err := f(); if err != nil { return err }; g()] *)
Definition andThen {St : Type} (f g : stfn St) : stfn St := fun s =>
  match f s with
  | Ret (s', None) => g s'
  | Ret (s', Some e) => Ret (s', Some e)
  | Panic e => Panic e
  end.

(** [return nil] *)
Definition returnNil {St : Type} : stfn St := fun s => Ret (s, None).

(** [for _, x := range xs { err := body(x); if err != nil { return err } }] *)
Fixpoint forRange {St A : Type} (body : A -> stfn St) (xs : list A) : stfn St :=
  match xs with
  | [] => returnNil
  | x :: xs' => andThen (body x) (forRange body xs')
  end.

(** [for i := n - 1; i >= 0; i-- { err := body(xs[i]); if err != nil
    { return err } }], started with [n = len(xs)]. *)
Fixpoint forDown {St A : Type} (body : A -> stfn St) (xs : list A) (n : nat) : stfn St :=
  match n with
  | O => returnNil
  | S i =>
      match xs !! i with
      | Some x => andThen (body x) (forDown body xs i)
      | None => fun _ => Panic errIndexOutOfRange
      end
  end.

Section Model.
Context `{T : Types}.

(** ** The five diff records of package [modules] *)

Record SiacoinOutputDiff := {
  scodDirection : DiffDirection;
  scodID : OutputID;
  scodSiacoinOutput : SiacoinOutput
}.

Record FileContractDiff := {
  fcdDirection : DiffDirection;
  fcdID : OutputID;
  fcdFileContract : FileContract
}.

Record SiafundOutputDiff := {
  sfodDirection : DiffDirection;
  sfodID : OutputID;
  sfodSiafundOutput : SiafundOutput
}.

Record DelayedSiacoinOutputDiff := {
  dscodDirection : DiffDirection;
  dscodID : OutputID;
  dscodSiacoinOutput : SiacoinOutput;
  dscodMaturityHeight : BlockHeight
}.

Record SiafundPoolDiff := {
  sfpdDirection : DiffDirection;
  sfpdPrevious : Currency;
  sfpdAdjusted : Currency
}.

(** ** [processedBlock] *)

Record processedBlock := {
  pbBlock : Block;
  Parent : BlockID;
  Height : BlockHeight;
  DiffsGenerated : bool;
  SiacoinOutputDiffs : list SiacoinOutputDiff;
  FileContractDiffs : list FileContractDiff;
  SiafundOutputDiffs : list SiafundOutputDiff;
  DelayedSiacoinOutputDiffs : list DelayedSiacoinOutputDiff;
  SiafundPoolDiffs : list SiafundPoolDiff;
  ConsensusSetHash : N
}.

Definition setDiffsGenerated (b : bool) (pb : processedBlock) : processedBlock :=
  {| pbBlock := pbBlock pb; Parent := Parent pb; Height := Height pb;
     DiffsGenerated := b;
     SiacoinOutputDiffs := SiacoinOutputDiffs pb;
     FileContractDiffs := FileContractDiffs pb;
     SiafundOutputDiffs := SiafundOutputDiffs pb;
     DelayedSiacoinOutputDiffs := DelayedSiacoinOutputDiffs pb;
     SiafundPoolDiffs := SiafundPoolDiffs pb;
     ConsensusSetHash := ConsensusSetHash pb |}.

Definition setConsensusSetHash (h : N) (pb : processedBlock) : processedBlock :=
  {| pbBlock := pbBlock pb; Parent := Parent pb; Height := Height pb;
     DiffsGenerated := DiffsGenerated pb;
     SiacoinOutputDiffs := SiacoinOutputDiffs pb;
     FileContractDiffs := FileContractDiffs pb;
     SiafundOutputDiffs := SiafundOutputDiffs pb;
     DelayedSiacoinOutputDiffs := DelayedSiacoinOutputDiffs pb;
     SiafundPoolDiffs := SiafundPoolDiffs pb;
     ConsensusSetHash := h |}.

(** ** The bolt database

    One field per bucket the engine touches.  [BlockPath] is keyed by the
    encoded height, the delayed outputs by maturity height and then by
    output. *)
Record DB := {
  SiacoinOutputs : gmap N SiacoinOutput;
  FileContracts : gmap N FileContract;
  SiafundOutputs : gmap N SiafundOutput;
  DelayedSiacoinOutputs : gmap N (gmap N SiacoinOutput);
  SiafundPool : Currency;
  BlockPath : gmap N N;
  BlockMap : gmap N processedBlock
}.

Definition setSiacoinOutputs (m : gmap N SiacoinOutput) (tx : DB) : DB :=
  {| SiacoinOutputs := m; FileContracts := FileContracts tx;
     SiafundOutputs := SiafundOutputs tx;
     DelayedSiacoinOutputs := DelayedSiacoinOutputs tx;
     SiafundPool := SiafundPool tx; BlockPath := BlockPath tx;
     BlockMap := BlockMap tx |}.

Definition setFileContracts (m : gmap N FileContract) (tx : DB) : DB :=
  {| SiacoinOutputs := SiacoinOutputs tx; FileContracts := m;
     SiafundOutputs := SiafundOutputs tx;
     DelayedSiacoinOutputs := DelayedSiacoinOutputs tx;
     SiafundPool := SiafundPool tx; BlockPath := BlockPath tx;
     BlockMap := BlockMap tx |}.

Definition setSiafundOutputs (m : gmap N SiafundOutput) (tx : DB) : DB :=
  {| SiacoinOutputs := SiacoinOutputs tx; FileContracts := FileContracts tx;
     SiafundOutputs := m;
     DelayedSiacoinOutputs := DelayedSiacoinOutputs tx;
     SiafundPool := SiafundPool tx; BlockPath := BlockPath tx;
     BlockMap := BlockMap tx |}.

Definition setDelayedSiacoinOutputs (m : gmap N (gmap N SiacoinOutput)) (tx : DB) : DB :=
  {| SiacoinOutputs := SiacoinOutputs tx; FileContracts := FileContracts tx;
     SiafundOutputs := SiafundOutputs tx;
     DelayedSiacoinOutputs := m;
     SiafundPool := SiafundPool tx; BlockPath := BlockPath tx;
     BlockMap := BlockMap tx |}.

Definition setBlockPath (m : gmap N N) (tx : DB) : DB :=
  {| SiacoinOutputs := SiacoinOutputs tx; FileContracts := FileContracts tx;
     SiafundOutputs := SiafundOutputs tx;
     DelayedSiacoinOutputs := DelayedSiacoinOutputs tx;
     SiafundPool := SiafundPool tx; BlockPath := m;
     BlockMap := BlockMap tx |}.

Definition setBlockMap (m : gmap N processedBlock) (tx : DB) : DB :=
  {| SiacoinOutputs := SiacoinOutputs tx; FileContracts := FileContracts tx;
     SiafundOutputs := SiafundOutputs tx;
     DelayedSiacoinOutputs := DelayedSiacoinOutputs tx;
     SiafundPool := SiafundPool tx; BlockPath := BlockPath tx;
     BlockMap := m |}.

(** The part of [ConsensusSet] the engine uses: the database and the set
    of blocks known to be invalid. *)
Record ConsensusSet := {
  db : DB;
  dosBlocks : gset N
}.

(** A function [func(tx *bolt.Tx, ...) error]. *)
Definition txfn : Type := DB -> outcome (DB * option error).

(** [db.Update] of bolt: the function runs on a transaction; when it
    returns an error the transaction is rolled back and the error is
    returned, otherwise the writes are committed.  A panic propagates. *)
Definition Update (f : txfn) (d : DB) : outcome (DB * option error) :=
  match f d with
  | Ret (d', None) => Ret (d', None)
  | Ret (_, Some e) => Ret (d, Some e)
  | Panic e => Panic e
  end.

(** [db.Update] with a closure that also writes variables it captures
    (here the block node [pb] and the enclosing [err]): those writes are
    not part of the transaction and survive a rollback. *)
Definition UpdateCapturing {X : Type} (f : DB -> outcome (DB * X * option error))
    (d : DB) : outcome (DB * X * option error) :=
  match f d with
  | Ret (d', x, None) => Ret (d', x, None)
  | Ret (_, x, Some e) => Ret (d, x, Some e)
  | Panic e => Panic e
  end.

(** ** Storage accessors *)

(** Modelled from the spec: [addSiacoinOutput] is not in [diffs.go].
    Section 4.1: forward = insert entity keyed by ID, fails fatally if
    already present. *)
Definition addSiacoinOutput (tx : DB) (id : OutputID) (sco : SiacoinOutput)
    : outcome (DB * option error) :=
  match SiacoinOutputs tx !! id with
  | Some _ => Panic errRepeatInsert
  | None => Ret (setSiacoinOutputs (<[id := sco]> (SiacoinOutputs tx)) tx, None)
  end.

(** Modelled from the spec: [removeSiacoinOutput] is not in [diffs.go].
    Section 4.1: inverse = delete by ID, fails fatally if absent. *)
Definition removeSiacoinOutput (tx : DB) (id : OutputID) : outcome (DB * option error) :=
  match SiacoinOutputs tx !! id with
  | None => Panic errNilItem
  | Some _ => Ret (setSiacoinOutputs (delete id (SiacoinOutputs tx)) tx, None)
  end.

(** Modelled from the spec: [addFileContract] is not in [diffs.go].
    Section 4.1: forward = insert entity keyed by ID, fails fatally if
    already present. *)
Definition addFileContract (tx : DB) (id : OutputID) (fc : FileContract)
    : outcome (DB * option error) :=
  match FileContracts tx !! id with
  | Some _ => Panic errRepeatInsert
  | None => Ret (setFileContracts (<[id := fc]> (FileContracts tx)) tx, None)
  end.

(** Modelled from the spec: [removeFileContract] is not in [diffs.go].
    Section 4.1: inverse = delete by ID, fails fatally if absent. *)
Definition removeFileContract (tx : DB) (id : OutputID) : outcome (DB * option error) :=
  match FileContracts tx !! id with
  | None => Panic errNilItem
  | Some _ => Ret (setFileContracts (delete id (FileContracts tx)) tx, None)
  end.

(** Modelled from the spec: [addSiafundOutput] is not in [diffs.go].
    Section 4.1: forward = insert entity keyed by ID, fails fatally if
    already present. *)
Definition addSiafundOutput (tx : DB) (id : OutputID) (sfo : SiafundOutput)
    : outcome (DB * option error) :=
  match SiafundOutputs tx !! id with
  | Some _ => Panic errRepeatInsert
  | None => Ret (setSiafundOutputs (<[id := sfo]> (SiafundOutputs tx)) tx, None)
  end.

(** Modelled from the spec: [removeSiafundOutput] is not in [diffs.go].
    Section 4.1: inverse = delete by ID, fails fatally if absent. *)
Definition removeSiafundOutput (tx : DB) (id : OutputID) : outcome (DB * option error) :=
  match SiafundOutputs tx !! id with
  | None => Panic errNilItem
  | Some _ => Ret (setSiafundOutputs (delete id (SiafundOutputs tx)) tx, None)
  end.

(** Modelled from the spec: [addDSCO] is not in [diffs.go].  Section 4.1:
    forward = insert into the bucket for [maturityHeight], fails if that
    height has no bucket ("bad maturity height"). *)
Definition addDSCO (tx : DB) (bh : BlockHeight) (id : OutputID) (sco : SiacoinOutput)
    : outcome (DB * option error) :=
  match DelayedSiacoinOutputs tx !! bh with
  | None => Ret (tx, Some errBadMaturityHeight)
  | Some bucket =>
      Ret (setDelayedSiacoinOutputs
             (<[bh := <[id := sco]> bucket]> (DelayedSiacoinOutputs tx)) tx, None)
  end.

(** Modelled from the spec: [removeDSCO] is not in [diffs.go].  Section
    4.1: inverse = remove from that bucket; a height without a bucket is
    the same "bad maturity height" failure as for the insertion. *)
Definition removeDSCO (tx : DB) (bh : BlockHeight) (id : OutputID)
    : outcome (DB * option error) :=
  match DelayedSiacoinOutputs tx !! bh with
  | None => Ret (tx, Some errBadMaturityHeight)
  | Some bucket =>
      Ret (setDelayedSiacoinOutputs
             (<[bh := delete id bucket]> (DelayedSiacoinOutputs tx)) tx, None)
  end.

(** Modelled from the spec: [createDSCOBucket] is not in [diffs.go].
    Section 3: creating a bucket that already exists is a fault; the
    function returns an error value, [errCreatingExistingUpcomingMap]. *)
Definition createDSCOBucket (tx : DB) (bh : BlockHeight) : outcome (DB * option error) :=
  match DelayedSiacoinOutputs tx !! bh with
  | Some _ => Ret (tx, Some errCreatingExistingUpcomingMap)
  | None => Ret (setDelayedSiacoinOutputs (<[bh := ∅]> (DelayedSiacoinOutputs tx)) tx, None)
  end.

(** Modelled from the spec: [getSiafundPool] and [setSiafundPool] are not
    in [diffs.go].  Section 3: the pool is a single accumulator value. *)
Definition getSiafundPool (tx : DB) : Currency := SiafundPool tx.

Definition setSiafundPool (tx : DB) (c : Currency) : DB :=
  {| SiacoinOutputs := SiacoinOutputs tx; FileContracts := FileContracts tx;
     SiafundOutputs := SiafundOutputs tx;
     DelayedSiacoinOutputs := DelayedSiacoinOutputs tx;
     SiafundPool := c; BlockPath := BlockPath tx;
     BlockMap := BlockMap tx |}.

(** Modelled from the spec: [lenDelayedSiacoinOutputsHeight] is not in
    [diffs.go].  Section 6: buckets are keyed by integer height; the
    number of delayed outputs in the bucket of that height. *)
Definition lenDelayedSiacoinOutputsHeight (d : DB) (h : BlockHeight) : N :=
  match DelayedSiacoinOutputs d !! h with
  | Some bucket => N.of_nat (size bucket)
  | None => 0
  end.

(** Modelled from the spec: [rmDelayedSiacoinOutputs] is not in
    [diffs.go].  Section 6: bucket deletion keyed by integer height. *)
Definition rmDelayedSiacoinOutputs (d : DB) (h : BlockHeight) : DB :=
  setDelayedSiacoinOutputs (delete h (DelayedSiacoinOutputs d)) d.

(** Modelled from the spec: [pushPath] is not in [diffs.go].  Section 3:
    appends at the next height; the path's length is the current height
    plus one. *)
Definition pushPath (d : DB) (bid : BlockID) : DB * option error :=
  (setBlockPath (<[N.of_nat (size (BlockPath d)) := bid]> (BlockPath d)) d, None).

(** Modelled from the spec: [popPath] is not in [diffs.go].  Section 3:
    removes the tip entry. *)
Definition popPath (d : DB) : DB * option error :=
  (setBlockPath (delete (N.pred (N.of_nat (size (BlockPath d)))) (BlockPath d)) d, None).

(** Modelled from the spec: [currentBlockID] is not in [diffs.go].
    Section 3: the tip of the canonical path, the entry at the current
    height (the zero identifier on an empty path). *)
Definition currentBlockID (d : DB) : BlockID :=
  default 0 (BlockPath d !! N.pred (N.of_nat (size (BlockPath d)))).

(** Modelled from the spec: [getBlockMap] is not in [diffs.go].  Section
    2: the block index lookup; asking for a block that is not stored is a
    fault. *)
Definition getBlockMap (d : DB) (id : BlockID) : outcome processedBlock :=
  match BlockMap d !! id with
  | Some pb => Ret pb
  | None => Panic errNilItem
  end.

Variable DEBUG : bool.
Variable MaturityDelay : BlockHeight.

(** ** The commit engine *)

(** [commitSiacoinOutputDiff] applies or reverts a SiacoinOutputDiff. *)
Definition commitSiacoinOutputDiff (tx : DB) (scod : SiacoinOutputDiff)
    (dir : DiffDirection) : outcome (DB * option error) :=
  if decide (scodDirection scod = dir)
  then addSiacoinOutput tx (scodID scod) (scodSiacoinOutput scod)
  else removeSiacoinOutput tx (scodID scod).

(** [commitFileContractDiff] applies or reverts a FileContractDiff. *)
Definition commitFileContractDiff (tx : DB) (fcd : FileContractDiff)
    (dir : DiffDirection) : outcome (DB * option error) :=
  if decide (fcdDirection fcd = dir)
  then addFileContract tx (fcdID fcd) (fcdFileContract fcd)
  else removeFileContract tx (fcdID fcd).

(** [commitSiafundOutputDiff] applies or reverts a Siafund output diff. *)
Definition commitSiafundOutputDiff (tx : DB) (sfod : SiafundOutputDiff)
    (dir : DiffDirection) : outcome (DB * option error) :=
  if decide (sfodDirection sfod = dir)
  then addSiafundOutput tx (sfodID sfod) (sfodSiafundOutput sfod)
  else removeSiafundOutput tx (sfodID sfod).

(** [commitDelayedSiacoinOutputDiff] applies or reverts a
    delayedSiacoinOutputDiff. *)
Definition commitDelayedSiacoinOutputDiff (tx : DB) (dscod : DelayedSiacoinOutputDiff)
    (dir : DiffDirection) : outcome (DB * option error) :=
  if decide (dscodDirection dscod = dir)
  then addDSCO tx (dscodMaturityHeight dscod) (dscodID dscod) (dscodSiacoinOutput dscod)
  else removeDSCO tx (dscodMaturityHeight dscod) (dscodID dscod).

(** [commitSiafundPoolDiff] applies or reverts a SiafundPoolDiff. *)
Definition commitSiafundPoolDiff (tx : DB) (sfpd : SiafundPoolDiff)
    (dir : DiffDirection) : outcome (DB * option error) :=
  if DEBUG && (sfpdAdjusted sfpd <? sfpdPrevious sfpd) then
    Panic errNegativePoolAdjustment
  else if DEBUG && negb (bool_decide (sfpdDirection sfpd = DiffApply)) then
    Panic errNonApplySiafundPoolDiff
  else if decide (dir = DiffApply) then
    if DEBUG && negb (getSiafundPool tx =? sfpdPrevious sfpd) then
      Panic errApplySiafundPoolDiffMismatch
    else Ret (setSiafundPool tx (sfpdAdjusted sfpd), None)
  else
    if DEBUG && negb (getSiafundPool tx =? sfpdAdjusted sfpd) then
      Panic errRevertSiafundPoolDiffMismatch
    else Ret (setSiafundPool tx (sfpdPrevious sfpd), None).

(** [commitDiffSetSanity] performs a series of sanity checks before
    committing a diff set. *)
Definition commitDiffSetSanity (d : DB) (pb : processedBlock) (dir : DiffDirection)
    : outcome unit :=
  if DEBUG then
    if negb (DiffsGenerated pb) then Panic errDiffsNotGenerated
    else if decide (dir = DiffApply) then
      match getBlockMap d (Parent pb) with
      | Panic e => Panic e
      | Ret parent =>
          if decide (ID (pbBlock parent) = currentBlockID d) then Ret ()
          else Panic errWrongAppliedDiffSet
      end
    else
      if decide (ID (pbBlock pb) = currentBlockID d) then Ret ()
      else Panic errWrongRevertDiffSet
  else Ret ().

(** [createUpcomingDelayedOutputMaps] creates the delayed siacoin output
    maps that will be used when applying delayed siacoin outputs in the
    diff set. *)
Definition createUpcomingDelayedOutputMaps (tx : DB) (pb : processedBlock)
    (dir : DiffDirection) : outcome (DB * option error) :=
  if decide (dir = DiffApply) then
    createDSCOBucket tx (height_add (Height pb) MaturityDelay)
  else if MaturityDelay <? Height pb then
    createDSCOBucket tx (Height pb)
  else Ret (tx, None).

(** The function [commitNodeDiffs] hands to [db.Update]. *)
Definition commitNodeDiffsTx (pb : processedBlock) (dir : DiffDirection) : txfn :=
  if decide (dir = DiffApply) then
    andThen (forRange (fun scod tx => commitSiacoinOutputDiff tx scod dir)
               (SiacoinOutputDiffs pb))
   (andThen (forRange (fun fcd tx => commitFileContractDiff tx fcd dir)
               (FileContractDiffs pb))
   (andThen (forRange (fun sfod tx => commitSiafundOutputDiff tx sfod dir)
               (SiafundOutputDiffs pb))
   (andThen (forRange (fun dscod tx => commitDelayedSiacoinOutputDiff tx dscod dir)
               (DelayedSiacoinOutputDiffs pb))
   (andThen (forRange (fun sfpd tx => commitSiafundPoolDiff tx sfpd dir)
               (SiafundPoolDiffs pb))
            returnNil))))
  else
    andThen (forDown (fun scod tx => commitSiacoinOutputDiff tx scod dir)
               (SiacoinOutputDiffs pb) (length (SiacoinOutputDiffs pb)))
   (andThen (forDown (fun fcd tx => commitFileContractDiff tx fcd dir)
               (FileContractDiffs pb) (length (FileContractDiffs pb)))
   (andThen (forDown (fun sfod tx => commitSiafundOutputDiff tx sfod dir)
               (SiafundOutputDiffs pb) (length (SiafundOutputDiffs pb)))
   (andThen (forDown (fun dscod tx => commitDelayedSiacoinOutputDiff tx dscod dir)
               (DelayedSiacoinOutputDiffs pb) (length (DelayedSiacoinOutputDiffs pb)))
   (andThen (forDown (fun sfpd tx => commitSiafundPoolDiff tx sfpd dir)
               (SiafundPoolDiffs pb) (length (SiafundPoolDiffs pb)))
            returnNil)))).

(** [commitNodeDiffs] commits all of the diffs in a block node. *)
Definition commitNodeDiffs (d : DB) (pb : processedBlock) (dir : DiffDirection)
    : outcome (DB * option error) :=
  match Update (commitNodeDiffsTx pb dir) d with
  | Ret (d', Some e) => Ret (d', Some e)
  | Ret (d', None) => Ret (d', None)
  | Panic e => Panic e
  end.

(** [deleteObsoleteDelayedOutputMaps] deletes the delayed siacoin output
    maps that are no longer in use. *)
Definition deleteObsoleteDelayedOutputMaps (d : DB) (pb : processedBlock)
    (dir : DiffDirection) : outcome DB :=
  if decide (dir = DiffApply) then
    if MaturityDelay <? Height pb then
      if DEBUG && negb (lenDelayedSiacoinOutputsHeight d (Height pb) =? 0) then
        Panic errDeletingNonEmptyDelayedMap
      else Ret (rmDelayedSiacoinOutputs d (Height pb))
    else Ret d
  else
    if DEBUG && negb (lenDelayedSiacoinOutputsHeight d
                        (height_add (Height pb) MaturityDelay) =? 0) then
      Panic errDeletingNonEmptyDelayedMap
    else Ret (rmDelayedSiacoinOutputs d (height_add (Height pb) MaturityDelay)).

(** [updateCurrentPath] updates the current path after applying a diff
    set. *)
Definition updateCurrentPath (d : DB) (pb : processedBlock) (dir : DiffDirection)
    : outcome DB :=
  if decide (dir = DiffApply) then
    match pushPath d (ID (pbBlock pb)) with
    | (d', Some e) => if DEBUG then Panic e else Ret d'
    | (d', None) => Ret d'
    end
  else
    match popPath d with
    | (d', Some e) => if DEBUG then Panic e else Ret d'
    | (d', None) => Ret d'
    end.

(** [commitDiffSet] applies or reverts the diffs in a blockNode. *)
Definition commitDiffSet (d : DB) (pb : processedBlock) (dir : DiffDirection)
    : outcome (DB * option error) :=
  match commitDiffSetSanity d pb dir with
  | Panic e => Panic e
  | Ret _ =>
      match Update (fun tx => createUpcomingDelayedOutputMaps tx pb dir) d with
      | Panic e => Panic e
      | Ret (d1, Some e) => Ret (d1, Some e)
      | Ret (d1, None) =>
          match commitNodeDiffs d1 pb dir with
          | Panic e => Panic e
          | Ret (d2, _) =>
              match deleteObsoleteDelayedOutputMaps d2 pb dir with
              | Panic e => Panic e
              | Ret d3 =>
                  match updateCurrentPath d3 pb dir with
                  | Panic e => Panic e
                  | Ret d4 => Ret (d4, None)
                  end
              end
          end
      end
  end.

(** ** The diffs of a node as one sequence *)

(** A diff of any of the five kinds. *)
Inductive Diff :=
| SCOD (scod : SiacoinOutputDiff)
| FCD (fcd : FileContractDiff)
| SFOD (sfod : SiafundOutputDiff)
| DSCOD (dscod : DelayedSiacoinOutputDiff)
| SFPD (sfpd : SiafundPoolDiff).

(** Committing a diff of any kind with the function of its kind. *)
Definition commitDiff (dir : DiffDirection) (d : Diff) : txfn := fun tx =>
  match d with
  | SCOD scod => commitSiacoinOutputDiff tx scod dir
  | FCD fcd => commitFileContractDiff tx fcd dir
  | SFOD sfod => commitSiafundOutputDiff tx sfod dir
  | DSCOD dscod => commitDelayedSiacoinOutputDiff tx dscod dir
  | SFPD sfpd => commitSiafundPoolDiff tx sfpd dir
  end.

(** The direction tag of a diff, and the two storage actions of section
    4.1 of the specification: the forward action inserts the entity (for
    the pool: moves it to the adjusted value), the inverse action removes
    it (for the pool: moves it back to the previous value). *)
Definition diffDirection (d : Diff) : DiffDirection :=
  match d with
  | SCOD scod => scodDirection scod
  | FCD fcd => fcdDirection fcd
  | SFOD sfod => sfodDirection sfod
  | DSCOD dscod => dscodDirection dscod
  | SFPD sfpd => sfpdDirection sfpd
  end.

Definition forwardAction (d : Diff) : txfn := fun tx =>
  match d with
  | SCOD scod => addSiacoinOutput tx (scodID scod) (scodSiacoinOutput scod)
  | FCD fcd => addFileContract tx (fcdID fcd) (fcdFileContract fcd)
  | SFOD sfod => addSiafundOutput tx (sfodID sfod) (sfodSiafundOutput sfod)
  | DSCOD dscod =>
      addDSCO tx (dscodMaturityHeight dscod) (dscodID dscod) (dscodSiacoinOutput dscod)
  | SFPD sfpd => Ret (setSiafundPool tx (sfpdAdjusted sfpd), None)
  end.

Definition inverseAction (d : Diff) : txfn := fun tx =>
  match d with
  | SCOD scod => removeSiacoinOutput tx (scodID scod)
  | FCD fcd => removeFileContract tx (fcdID fcd)
  | SFOD sfod => removeSiafundOutput tx (sfodID sfod)
  | DSCOD dscod => removeDSCO tx (dscodMaturityHeight dscod) (dscodID dscod)
  | SFPD sfpd => Ret (setSiafundPool tx (sfpdPrevious sfpd), None)
  end.

(** The order of section 4.3 of the specification: the categories one
    after the other, coin outputs, contracts, siafund outputs, delayed
    outputs, pool; each in insertion order when applying and in reverse
    insertion order when reverting. *)
Definition inDirection {A : Type} (dir : DiffDirection) (l : list A) : list A :=
  match dir with DiffApply => l | DiffRevert => rev l end.

Definition categoryOrder (pb : processedBlock) (dir : DiffDirection) : list Diff :=
  (SCOD <$> inDirection dir (SiacoinOutputDiffs pb))
  ++ (FCD <$> inDirection dir (FileContractDiffs pb))
  ++ (SFOD <$> inDirection dir (SiafundOutputDiffs pb))
  ++ (DSCOD <$> inDirection dir (DelayedSiacoinOutputDiffs pb))
  ++ (SFPD <$> inDirection dir (SiafundPoolDiffs pb)).

(** ** Diffs that describe the storage they are committed to

    A diff is consistent with the storage, for a direction, when the
    entity it is about to insert is not stored, or the entity it is about
    to remove is stored with the value the diff records; for the pool,
    when the diff is well formed and the stored pool is the value the
    diff starts from. *)
Definition entryConsistent {V : Type} (forward : bool) (id : N) (v : V)
    (m : gmap N V) : Prop :=
  if forward then m !! id = None else m !! id = Some v.

Definition scodConsistent (tx : DB) (d : SiacoinOutputDiff) (dir : DiffDirection) : Prop :=
  entryConsistent (bool_decide (scodDirection d = dir)) (scodID d)
    (scodSiacoinOutput d) (SiacoinOutputs tx).

Definition fcdConsistent (tx : DB) (d : FileContractDiff) (dir : DiffDirection) : Prop :=
  entryConsistent (bool_decide (fcdDirection d = dir)) (fcdID d)
    (fcdFileContract d) (FileContracts tx).

Definition sfodConsistent (tx : DB) (d : SiafundOutputDiff) (dir : DiffDirection) : Prop :=
  entryConsistent (bool_decide (sfodDirection d = dir)) (sfodID d)
    (sfodSiafundOutput d) (SiafundOutputs tx).

Definition bucketConsistent (forward : bool) (bh id : N) (v : SiacoinOutput)
    (m : gmap N (gmap N SiacoinOutput)) : Prop :=
  match m !! bh with
  | Some bucket => entryConsistent forward id v bucket
  | None => False
  end.

Definition dscodConsistent (tx : DB) (d : DelayedSiacoinOutputDiff)
    (dir : DiffDirection) : Prop :=
  bucketConsistent (bool_decide (dscodDirection d = dir)) (dscodMaturityHeight d)
    (dscodID d) (dscodSiacoinOutput d) (DelayedSiacoinOutputs tx).

Definition poolConsistent (d : SiafundPoolDiff) (dir : DiffDirection)
    (pool : Currency) : Prop :=
  sfpdPrevious d <= sfpdAdjusted d
  /\ sfpdDirection d = DiffApply
  /\ pool = match dir with DiffApply => sfpdPrevious d | DiffRevert => sfpdAdjusted d end.

Definition sfpdConsistent (tx : DB) (d : SiafundPoolDiff) (dir : DiffDirection) : Prop :=
  poolConsistent d dir (getSiafundPool tx).

Definition diffConsistent (dir : DiffDirection) (d : Diff) (tx : DB) : Prop :=
  match d with
  | SCOD scod => scodConsistent tx scod dir
  | FCD fcd => fcdConsistent tx fcd dir
  | SFOD sfod => sfodConsistent tx sfod dir
  | DSCOD dscod => dscodConsistent tx dscod dir
  | SFPD sfpd => sfpdConsistent tx sfpd dir
  end.

(** Every step of a run is consistent with the state it starts from. *)
Fixpoint consistentRun {St A : Type} (body : A -> stfn St) (ok : A -> St -> Prop)
    (xs : list A) (s : St) : Prop :=
  match xs with
  | [] => True
  | x :: xs' =>
      ok x s /\
      match body x s with
      | Ret (s', None) => consistentRun body ok xs' s'
      | _ => False
      end
  end.

Definition diffsConsistent (ds : list Diff) (dir : DiffDirection) (tx : DB) : Prop :=
  consistentRun (commitDiff dir) (diffConsistent dir) ds tx.

(** A node applies faithfully to a storage when, once the upcoming bucket
    is created, its diffs in the order of application are consistent with
    the storage, the bucket consumed at its height (if any) is present and
    empty after the diffs, and the path has no entry above its tip. *)
Definition appliesFaithfully (d : DB) (pb : processedBlock) : Prop :=
  exists d1 d2,
    createUpcomingDelayedOutputMaps d pb DiffApply = Ret (d1, None)
    /\ diffsConsistent (categoryOrder pb DiffApply) DiffApply d1
    /\ commitNodeDiffsTx pb DiffApply d1 = Ret (d2, None)
    /\ (MaturityDelay < Height pb -> DelayedSiacoinOutputs d2 !! Height pb = Some ∅)
    /\ BlockPath d !! N.of_nat (size (BlockPath d)) = None.

(** A node reverts faithfully from a storage when, once the bucket of its
    height is re-created, its diffs in the order of reversal are consistent
    with the storage, the bucket of the upcoming height is present and empty
    after the diffs, the node is the tip entry of the path, and the sanity
    checks of a later application pass on the shortened path. *)
Definition revertsFaithfully (d : DB) (pb : processedBlock) : Prop :=
  exists d1 d2,
    createUpcomingDelayedOutputMaps d pb DiffRevert = Ret (d1, None)
    /\ diffsConsistent (categoryOrder pb DiffRevert) DiffRevert d1
    /\ commitNodeDiffsTx pb DiffRevert d1 = Ret (d2, None)
    /\ DelayedSiacoinOutputs d2 !! height_add (Height pb) MaturityDelay = Some ∅
    /\ BlockPath d !! N.pred (N.of_nat (size (BlockPath d))) = Some (ID (pbBlock pb))
    /\ commitDiffSetSanity (fst (popPath d)) pb DiffApply = Ret ().

(** A sequence of blocks applied one after the other with
    [commitDiffSet]. *)
Fixpoint applyBlocks (pbs : list processedBlock) (d : DB) : outcome DB :=
  match pbs with
  | [] => Ret d
  | pb :: pbs' =>
      match commitDiffSet d pb DiffApply with
      | Ret (d', _) => applyBlocks pbs' d'
      | Panic e => Panic e
      end
  end.

(** A sequence of blocks reverted one after the other with
    [commitDiffSet]. *)
Fixpoint revertBlocks (pbs : list processedBlock) (d : DB) : outcome DB :=
  match pbs with
  | [] => Ret d
  | pb :: pbs' =>
      match commitDiffSet d pb DiffRevert with
      | Ret (d', _) => revertBlocks pbs' d'
      | Panic e => Panic e
      end
  end.

(** Every block of a chain applies faithfully to the storage the blocks
    before it leave. *)
Fixpoint chainFaithful (pbs : list processedBlock) (d : DB) : Prop :=
  match pbs with
  | [] => True
  | pb :: pbs' =>
      appliesFaithfully d pb /\
      match commitDiffSet d pb DiffApply with
      | Ret (d', None) => chainFaithful pbs' d'
      | _ => False
      end
  end.

(** ** The engine seen from one bucket

    Each commit function reads and writes one field of the database; these
    are the same functions on the field alone. *)
Definition liftField {A : Type} (get : DB -> A) (set : A -> DB -> DB)
    (f : stfn A) : txfn := fun tx =>
  match f (get tx) with
  | Ret (a, r) => Ret (set a tx, r)
  | Panic e => Panic e
  end.

Definition entryCommit {V : Type} (forward : bool) (id : N) (v : V)
    : stfn (gmap N V) := fun m =>
  if forward then
    match m !! id with
    | Some _ => Panic errRepeatInsert
    | None => Ret (<[id := v]> m, None)
    end
  else
    match m !! id with
    | None => Panic errNilItem
    | Some _ => Ret (delete id m, None)
    end.

Definition bucketCommit (forward : bool) (bh id : N) (v : SiacoinOutput)
    : stfn (gmap N (gmap N SiacoinOutput)) := fun m =>
  match m !! bh with
  | None => Ret (m, Some errBadMaturityHeight)
  | Some bucket =>
      Ret (<[bh := if forward then <[id := v]> bucket else delete id bucket]> m, None)
  end.

Definition poolCommit (sfpd : SiafundPoolDiff) (dir : DiffDirection)
    : stfn Currency := fun pool =>
  if DEBUG && (sfpdAdjusted sfpd <? sfpdPrevious sfpd) then
    Panic errNegativePoolAdjustment
  else if DEBUG && negb (bool_decide (sfpdDirection sfpd = DiffApply)) then
    Panic errNonApplySiafundPoolDiff
  else if decide (dir = DiffApply) then
    if DEBUG && negb (pool =? sfpdPrevious sfpd) then
      Panic errApplySiafundPoolDiffMismatch
    else Ret (sfpdAdjusted sfpd, None)
  else
    if DEBUG && negb (pool =? sfpdAdjusted sfpd) then
      Panic errRevertSiafundPoolDiffMismatch
    else Ret (sfpdPrevious sfpd, None).


(** ** Generating the diffs of a block *)

(** The functions of the consensus package that [generateAndApplyDiff]
    calls and that live in other files: the transaction validator, the
    application of one transaction, the two maintenance entry points and
    the debug fingerprint.  Those that receive [pb] may append diffs to it
    and hand the updated node back. *)
Variable validTxTransaction : DB -> Transaction -> outcome (DB * option error).
Variable applyTransaction :
  DB -> processedBlock -> Transaction -> outcome (DB * processedBlock * option error).
Variable applyMaturedSiacoinOutputs :
  DB -> processedBlock -> outcome (DB * processedBlock * option error).
Variable applyMaintenance :
  DB -> processedBlock -> outcome (DB * processedBlock * option error).
Variable consensusSetHash : DB -> N.

Definition setDB (d : DB) (cs : ConsensusSet) : ConsensusSet :=
  {| db := d; dosBlocks := dosBlocks cs |}.

(** How one iteration of the transaction loop ends: it falls through to
    the next transaction or returns from [generateAndApplyDiff]. *)
Inductive flow :=
| Next
| Return (err : option error).

(** The first [db.Update] of [generateAndApplyDiff]: the block is put in
    [BlockPath] at its height and the upcoming bucket is created, the
    result of [createDSCOBucket] being dropped. *)
Definition pointToNewBlock (pb : processedBlock) : txfn := fun tx =>
  let bid := ID (pbBlock pb) in
  let tx1 := setBlockPath (<[Height pb := bid]> (BlockPath tx)) tx in
  match createDSCOBucket tx1 (height_add (Height pb) MaturityDelay) with
  | Ret (tx2, _) => Ret (tx2, None)
  | Panic e => Panic e
  end.

(** The body of [for _, txn := range pb.Block.Transactions]. *)
Definition processTransaction (txn : Transaction) (cs : ConsensusSet)
    (pb : processedBlock) : outcome (ConsensusSet * processedBlock * flow) :=
  match Update (fun tx => validTxTransaction tx txn) (db cs) with
  | Panic e => Panic e
  | Ret (d1, Some err) =>
      match UpdateCapturing (fun tx => applyMaturedSiacoinOutputs tx pb) d1 with
      | Panic e => Panic e
      | Ret (d2, pb2, Some updateErr) =>
          Ret (setDB d2 cs, pb2, Return (Some (updateErr ++ " and " ++ err)%string))
      | Ret (d2, pb2, None) =>
          match commitDiffSet d2 pb2 DiffRevert with
          | Panic e => Panic e
          | Ret (d3, _) =>
              Ret ({| db := d3; dosBlocks := {[ ID (pbBlock pb2) ]} ∪ dosBlocks cs |},
                   pb2, Return (Some err))
          end
      end
  | Ret (d1, None) =>
      match UpdateCapturing (fun tx => applyTransaction tx pb txn) d1 with
      | Panic e => Panic e
      | Ret (d2, pb2, Some err) => Ret (setDB d2 cs, pb2, Return (Some err))
      | Ret (d2, pb2, None) => Ret (setDB d2 cs, pb2, Next)
      end
  end.

Fixpoint forTransactions (txns : list Transaction) (cs : ConsensusSet)
    (pb : processedBlock) : outcome (ConsensusSet * processedBlock * flow) :=
  match txns with
  | [] => Ret (cs, pb, Next)
  | txn :: txns' =>
      match processTransaction txn cs pb with
      | Ret (cs', pb', Next) => forTransactions txns' cs' pb'
      | r => r
      end
  end.

(** [generateAndApplyDiff] will verify the block and then integrate it
    into the consensus state. *)
Definition generateAndApplyDiff (cs : ConsensusSet) (pb : processedBlock)
    : outcome (ConsensusSet * processedBlock * option error) :=
  if DEBUG && negb (bool_decide (Parent pb = currentBlockID (db cs))) then
    Panic errInvalidSuccessor
  else
    match Update (pointToNewBlock pb) (db cs) with
    | Panic e => Panic e
    | Ret (_, Some e) => Panic e
    | Ret (d1, None) =>
        let pb1 := setDiffsGenerated true pb in
        match forTransactions (Transactions (pbBlock pb1)) (setDB d1 cs) pb1 with
        | Panic e => Panic e
        | Ret (cs2, pb2, Return err) => Ret (cs2, pb2, err)
        | Ret (cs2, pb2, Next) =>
            match applyMaintenance (db cs2) pb2 with
            | Panic e => Panic e
            | Ret (d3, pb3, Some err) => Ret (setDB d3 cs2, pb3, Some err)
            | Ret (d3, pb3, None) =>
                let pb4 := if DEBUG then setConsensusSetHash (consensusSetHash d3) pb3
                           else pb3 in
                match Update (fun tx =>
                        Ret (setBlockMap (<[ID (pbBlock pb4) := pb4]> (BlockMap tx)) tx,
                             None)) d3 with
                | Panic e => Panic e
                | Ret (d4, err) => Ret (setDB d4 cs2, pb4, err)
                end
            end
        end
    end.

End Model.

(** * Concrete data

    A small instance used to run the engine: every payload is a number, a
    block is its identifier together with its transactions. *)

Module Ex.
Definition types : Types :=
  {| SiacoinOutput := N; FileContract := N; SiafundOutput := N; Transaction := N;
     Block := N * list N; ID := fst; Transactions := snd |}.
#[local] Existing Instance types.

Definition node (id parent height : N) (txns : list N) (generated : bool)
    (scods : list (@SiacoinOutputDiff types))
    (dscods : list (@DelayedSiacoinOutputDiff types))
    (sfpds : list SiafundPoolDiff) : @processedBlock types :=
  {| pbBlock := (id, txns) : @Block types; Parent := parent; Height := height;
     DiffsGenerated := generated;
     SiacoinOutputDiffs := scods; FileContractDiffs := []; SiafundOutputDiffs := [];
     DelayedSiacoinOutputDiffs := dscods; SiafundPoolDiffs := sfpds;
     ConsensusSetHash := 0 |}.

(** The genesis block, identifier 10, and a storage whose tip it is. *)
Definition genesis : @processedBlock types := node 10 0 0 [] true [] [] [].

Definition storage (scos : gmap N N) (dscos : gmap N (gmap N N)) (pool : N)
    (path : gmap N N) : @DB types :=
  {| SiacoinOutputs := scos; FileContracts := ∅; SiafundOutputs := ∅;
     DelayedSiacoinOutputs := dscos; SiafundPool := pool; BlockPath := path;
     BlockMap := {[ 10 := genesis ]} |}.

Definition atGenesis : @DB types := storage ∅ ∅ 100 {[ 0 := 10 ]}.

Definition scod (dir : DiffDirection) (id v : N) : @SiacoinOutputDiff types :=
  {| scodDirection := dir; scodID := id; scodSiacoinOutput := v : @SiacoinOutput types |}.

Definition dscod (dir : DiffDirection) (id v h : N) : @DelayedSiacoinOutputDiff types :=
  {| dscodDirection := dir; dscodID := id;
     dscodSiacoinOutput := v : @SiacoinOutput types; dscodMaturityHeight := h |}.

Definition sfpd (dir : DiffDirection) (prev adj : N) : SiafundPoolDiff :=
  {| sfpdDirection := dir; sfpdPrevious := prev; sfpdAdjusted := adj |}.


(** A storage at height 4 with tip 10, an output waiting in the bucket of
    height 5, and the node of height 5 that matures it, creates a delayed
    output for height 8 and adjusts the pool. *)
Definition atHeight4 : @DB types :=
  storage ∅ {[ 5 := {[ 7 := 50 ]} ]} 100
    {[ 0 := 6; 1 := 7; 2 := 8; 3 := 9; 4 := 10 ]}.

Definition maturing : @processedBlock types :=
  node 15 10 5 [] true [scod DiffApply 7 50]
    [dscod DiffRevert 7 50 5; dscod DiffApply 9 60 8] [sfpd DiffApply 100 120].

(** A node that spends output 1 and records the value 7 for it, and a
    storage in which output 1 has the value 5. *)
Definition spending : @processedBlock types :=
  node 11 10 1 [] true [scod DiffRevert 1 7] [] [].

Definition holding : @DB types := storage {[ 1 := 5 ]} ∅ 100 {[ 0 := 10 ]}.

(** A pool diff that lowers the pool, carries the revert tag and starts
    from a value that is not the stored one, and a node that holds it. *)
Definition lowering : SiafundPoolDiff := sfpd DiffRevert 100 50.

Definition loweringNode : @processedBlock types :=
  node 11 10 1 [] true [] [] [lowering].

(** A node whose diffs were not generated and that is not the tip. *)
Definition stray : @processedBlock types := node 99 98 1 [] false [] [] [].

(** Collaborators of [generateAndApplyDiff]: transaction 0 is invalid,
    transaction 2 cannot be applied, any other transaction [n] creates the
    siacoin output [n] with value 50 and records the diff; nothing matures
    and maintenance does nothing. *)
Definition validTx (tx : @DB types) (txn : N) : outcome (@DB types * option error) :=
  Ret (tx, if txn =? 0 then Some "invalid transaction"%string else None).

Definition addDiff (d : @SiacoinOutputDiff types) (pb : @processedBlock types)
    : @processedBlock types :=
  {| pbBlock := pbBlock pb; Parent := Parent pb; Height := Height pb;
     DiffsGenerated := DiffsGenerated pb;
     SiacoinOutputDiffs := SiacoinOutputDiffs pb ++ [d];
     FileContractDiffs := FileContractDiffs pb;
     SiafundOutputDiffs := SiafundOutputDiffs pb;
     DelayedSiacoinOutputDiffs := DelayedSiacoinOutputDiffs pb;
     SiafundPoolDiffs := SiafundPoolDiffs pb;
     ConsensusSetHash := ConsensusSetHash pb |}.

Definition applyTx (tx : @DB types) (pb : @processedBlock types) (txn : N)
    : outcome (@DB types * @processedBlock types * option error) :=
  if txn =? 2 then Ret (tx, pb, Some "cannot apply transaction"%string)
  else
    match commitSiacoinOutputDiff tx (scod DiffApply txn 50) DiffApply with
    | Ret (tx', r) => Ret (tx', addDiff (scod DiffApply txn 50) pb, r)
    | Panic e => Panic e
    end.

Definition noMaintenance (tx : @DB types) (pb : @processedBlock types)
    : outcome (@DB types * @processedBlock types * option error) :=
  Ret (tx, pb, None).

Definition failingMaintenance (tx : @DB types) (pb : @processedBlock types)
    : outcome (@DB types * @processedBlock types * option error) :=
  Ret (tx, pb, Some "maintenance failed"%string).

Definition noHash (tx : @DB types) : N := 0.

Definition atGenesisSet : @ConsensusSet types := {| db := atGenesis; dosBlocks := ∅ |}.

(** Blocks on top of the genesis block: the second transaction of the
    first is invalid, the second transaction of the other cannot be
    applied. *)
Definition invalidSecond : @processedBlock types := node 11 10 1 [1; 0] false [] [] [].
Definition failingSecond : @processedBlock types := node 11 10 1 [1; 2] false [] [] [].

(** The storage [atHeight4] after the node [maturing] was applied. *)
Definition afterMaturing : @DB types :=
  setBlockPath {[ 0 := 6; 1 := 7; 2 := 8; 3 := 9; 4 := 10; 5 := 15 ]}
    (setSiafundPool
       (setDelayedSiacoinOutputs {[ 8 := {[ 9 := 60 ]} ]}
          (setSiacoinOutputs {[ 7 := 50 ]} atHeight4)) 120).

(** A node whose first siacoin diff inserts an output that is already
    stored in [holding]. *)
Definition repeating : @processedBlock types :=
  node 11 10 1 [] true [scod DiffApply 1 5] [] [].

(** A block on top of the genesis block with two valid transactions, and a
    maintenance that always fails. *)
Definition validTwo : @processedBlock types := node 11 10 1 [1; 3] false [] [] [].

(** Two blocks on top of the genesis block, both in the block map: the first
    creates output 1, the second spends it, creates output 2 and raises the
    pool. *)
Definition chainOne : @processedBlock types :=
  node 11 10 1 [] true [scod DiffApply 1 5] [] [].
Definition chainTwo : @processedBlock types :=
  node 12 11 2 [] true [scod DiffRevert 1 5; scod DiffApply 2 5] []
    [sfpd DiffApply 100 130].
Definition atGenesisIndexed : @DB types :=
  setBlockMap {[ 10 := genesis; 11 := chainOne ]} atGenesis.

(** A storage at height 4 whose bucket of height 5 is already empty, and a
    node of height 5 whose delayed output names a height without bucket. *)
Definition drained : @DB types :=
  storage ∅ {[ 5 := ∅ ]} 100 {[ 0 := 6; 1 := 7; 2 := 8; 3 := 9; 4 := 10 ]}.

Definition badBucketAtFive : @processedBlock types :=
  node 15 10 5 [] true [scod DiffApply 1 5] [dscod DiffApply 2 6 9] [].

(** Maintenance at height 5: the delayed output 7 of the bucket of height 5
    matures, both diffs are recorded on the node, and the drained bucket is
    dropped; the second maintenance does the same and keeps the drained
    bucket. *)
Definition addDelayedDiff (d : @DelayedSiacoinOutputDiff types)
    (pb : @processedBlock types) : @processedBlock types :=
  {| pbBlock := pbBlock pb; Parent := Parent pb; Height := Height pb;
     DiffsGenerated := DiffsGenerated pb;
     SiacoinOutputDiffs := SiacoinOutputDiffs pb;
     FileContractDiffs := FileContractDiffs pb;
     SiafundOutputDiffs := SiafundOutputDiffs pb;
     DelayedSiacoinOutputDiffs := DelayedSiacoinOutputDiffs pb ++ [d];
     SiafundPoolDiffs := SiafundPoolDiffs pb;
     ConsensusSetHash := ConsensusSetHash pb |}.

Definition maturingKeeping (tx : @DB types) (pb : @processedBlock types)
    : outcome (@DB types * @processedBlock types * option error) :=
  match commitSiacoinOutputDiff tx (scod DiffApply 7 50) DiffApply with
  | Ret (tx1, None) =>
      match commitDelayedSiacoinOutputDiff tx1 (dscod DiffRevert 7 50 5) DiffApply with
      | Ret (tx2, r) =>
          Ret (tx2, addDelayedDiff (dscod DiffRevert 7 50 5)
                      (addDiff (scod DiffApply 7 50) pb), r)
      | Panic e => Panic e
      end
  | Ret (tx1, Some e) => Ret (tx1, pb, Some e)
  | Panic e => Panic e
  end.

Definition maturingMaintenance (tx : @DB types) (pb : @processedBlock types)
    : outcome (@DB types * @processedBlock types * option error) :=
  match maturingKeeping tx pb with
  | Ret (tx2, pb2, None) => Ret (rmDelayedSiacoinOutputs tx2 5, pb2, None)
  | r => r
  end.

Definition atHeight4Set : @ConsensusSet types := {| db := atHeight4; dosBlocks := ∅ |}.

(** A block of height 5 on top of block 10 whose second transaction is
    invalid, and the node generated for it when the maintenance runs. *)
Definition invalidAtFive : @processedBlock types := node 15 10 5 [1; 0] false [] [] [].

Definition invalidAtFiveNode : @processedBlock types :=
  node 15 10 5 [1; 0] true [scod DiffApply 1 50; scod DiffApply 7 50]
    [dscod DiffRevert 7 50 5] [].
End Ex.

(** * Properties *)

(** ** Loops *)

Section Loops.
Context {St A : Type}.
Implicit Types (body : A -> stfn St) (xs : list A) (s : St).

Lemma andThen_ext (f g g' : stfn St) s :
  (forall s', g s' = g' s') -> andThen f g s = andThen f g' s.
Proof.
  intros Hg. unfold andThen. destruct (f s) as [[s' [e|]]|e]; auto.
Qed.

Lemma andThen_ext2 (f f' g g' : stfn St) s :
  (forall s', f s' = f' s') -> (forall s', g s' = g' s') ->
  andThen f g s = andThen f' g' s.
Proof.
  intros Hf Hg. unfold andThen. rewrite Hf.
  destruct (f' s) as [[s' [e|]]|e]; auto.
Qed.

Lemma andThen_assoc (f g h : stfn St) s :
  andThen (andThen f g) h s = andThen f (andThen g h) s.
Proof.
  unfold andThen. destruct (f s) as [[s' [e|]]|e]; auto.
Qed.

Lemma andThen_returnNil (f : stfn St) s : andThen f returnNil s = f s.
Proof.
  unfold andThen, returnNil. destruct (f s) as [[s' [e|]]|e]; auto.
Qed.

Lemma forRange_app body xs ys s :
  forRange body (xs ++ ys) s = andThen (forRange body xs) (forRange body ys) s.
Proof.
  revert s. induction xs as [|x xs IH]; intros s; simpl.
  - reflexivity.
  - rewrite andThen_assoc. apply andThen_ext. exact IH.
Qed.

Lemma forRange_ext body body' xs s :
  (forall x s', body x s' = body' x s') ->
  forRange body xs s = forRange body' xs s.
Proof.
  intros Hb. revert s. induction xs as [|x xs IH]; intros s; simpl.
  - reflexivity.
  - unfold andThen. rewrite Hb. destruct (body' x s) as [[s' [e|]]|e]; auto.
Qed.

(** The countdown loop visits the first [n] elements from the last to the
    first. *)
Lemma forDown_take body xs n s :
  (n <= length xs)%nat ->
  forDown body xs n s = forRange body (rev (take n xs)) s.
Proof.
  revert s. induction n as [|i IH]; intros s Hn; simpl.
  - reflexivity.
  - destruct (lookup_lt_is_Some_2 xs i) as [x Hx]; [lia|].
    rewrite Hx. rewrite (take_S_r _ _ _ Hx), rev_app_distr. simpl.
    apply andThen_ext. intros s'. apply IH. lia.
Qed.

Lemma forDown_rev body xs s :
  forDown body xs (length xs) s = forRange body (rev xs) s.
Proof.
  rewrite forDown_take by lia. rewrite firstn_all. reflexivity.
Qed.
End Loops.

Lemma forRange_fmap {St A B : Type} (h : A -> B) (body : B -> stfn St)
    (xs : list A) (s : St) :
  forRange body (h <$> xs) s = forRange (fun x => body (h x)) xs s.
Proof.
  revert s. induction xs as [|x xs IH]; intros s; simpl.
  - reflexivity.
  - apply andThen_ext. exact IH.
Qed.

(** ** The order in which a node's diffs are committed *)

Section CommitOrder.
Context `{T : Types}.
Variable DEBUG : bool.

Lemma commitNodeDiffsTx_forRange (pb : processedBlock) (dir : DiffDirection) (tx : DB) :
  commitNodeDiffsTx DEBUG pb dir tx
  = forRange (commitDiff DEBUG dir) (categoryOrder pb dir) tx.
Proof.
  unfold commitNodeDiffsTx, categoryOrder. symmetry.
  destruct dir; simpl.
  - do 4 (rewrite forRange_app; apply andThen_ext2;
          [intros s'; rewrite forRange_fmap; reflexivity | clear tx; intros tx]).
    rewrite andThen_returnNil, forRange_fmap. reflexivity.
  - do 4 (rewrite forRange_app; apply andThen_ext2;
          [intros s'; rewrite forRange_fmap, forDown_rev; reflexivity
          | clear tx; intros tx]).
    rewrite andThen_returnNil, forRange_fmap, forDown_rev. reflexivity.
Qed.
End CommitOrder.

(** ** Undoing a run *)

Section Undo.
Context {St A : Type}.
Implicit Types (f g : A -> stfn St) (ok : A -> St -> Prop) (xs : list A) (s : St).

Lemma consistentRun_app f ok xs ys s :
  consistentRun f ok (xs ++ ys) s ->
  consistentRun f ok xs s
  /\ forall s', forRange f xs s = Ret (s', None) -> consistentRun f ok ys s'.
Proof.
  revert s. induction xs as [|x xs IH]; intros s H; simpl in *.
  - split; [exact I|]. intros s' Hs'. inversion Hs'; subst. exact H.
  - destruct H as [Hok H]. unfold andThen.
    destruct (f x s) as [[s1 [e|]]|e]; try contradiction.
    destruct (IH _ H) as [H1 H2]. auto.
Qed.

(** A consistent run returns without error. *)
Lemma consistentRun_returns f ok xs s :
  (forall x s, ok x s -> exists s', f x s = Ret (s', None)) ->
  consistentRun f ok xs s -> exists s', forRange f xs s = Ret (s', None).
Proof.
  intros Hstep. revert s. induction xs as [|x xs IH]; intros s H; simpl in *.
  - eexists. reflexivity.
  - destruct H as [Hok H]. unfold andThen.
    destruct (f x s) as [[s1 [e|]]|e]; try contradiction.
    apply IH, H.
Qed.

(** When every consistent step is undone by [g], a consistent run of [f]
    is undone by running [g] over the reversed list. *)
Lemma consistentRun_undo f g ok xs s :
  (forall x s, ok x s -> exists s', f x s = Ret (s', None) /\ g x s' = Ret (s, None)) ->
  consistentRun f ok xs s ->
  exists s', forRange f xs s = Ret (s', None)
             /\ forRange g (rev xs) s' = Ret (s, None).
Proof.
  intros Hstep. revert s. induction xs as [|x xs IH]; intros s H; simpl in *.
  - eexists. split; reflexivity.
  - destruct H as [Hok H]. destruct (Hstep _ _ Hok) as (s1 & Hf & Hg).
    unfold andThen at 1. rewrite Hf in H |- *.
    destruct (IH _ H) as (s2 & Hrun & Hback).
    exists s2. split; [exact Hrun|].
    rewrite forRange_app. unfold andThen. rewrite Hback. simpl.
    unfold andThen. rewrite Hg. reflexivity.
Qed.
End Undo.

Lemma consistentRun_ext {St A : Type} (f f' : A -> stfn St) (ok ok' : A -> St -> Prop)
    (xs : list A) (s : St) :
  (forall x s, f x s = f' x s) -> (forall x s, ok x s -> ok' x s) ->
  consistentRun f ok xs s -> consistentRun f' ok' xs s.
Proof.
  intros Hf Hok. revert s. induction xs as [|x xs IH]; intros s; simpl; [tauto|].
  rewrite Hf. intros [H1 H2]. split; [auto|].
  destruct (f' x s) as [[s1 [e|]]|e]; auto.
Qed.

Lemma consistentRun_fmap {St A B : Type} (h : A -> B) (f : B -> stfn St)
    (ok : B -> St -> Prop) (xs : list A) (s : St) :
  consistentRun f ok (h <$> xs) s
  <-> consistentRun (fun x => f (h x)) (fun x => ok (h x)) xs s.
Proof.
  revert s. induction xs as [|x xs IH]; intros s; simpl; [tauto|].
  destruct (f (h x) s) as [[s1 [e|]]|e]; try tauto.
  rewrite IH. tauto.
Qed.

(** ** One field at a time *)

Section Fields.
Context `{T : Types}.
Context {F X : Type} (get : DB -> F) (set : F -> DB -> DB).
Hypothesis get_set : forall a tx, get (set a tx) = a.
Hypothesis set_set : forall a b tx, set a (set b tx) = set a tx.
Hypothesis set_get : forall tx, set (get tx) tx = tx.

Lemma forRange_liftField (f : X -> stfn F) (xs : list X) (tx : DB) :
  forRange (fun x => liftField get set (f x)) xs tx
  = liftField get set (forRange f xs) tx.
Proof.
  revert tx. induction xs as [|x xs IH]; intros tx; simpl.
  - unfold liftField, returnNil. rewrite set_get. reflexivity.
  - unfold andThen at 1. unfold liftField at 1 3. unfold andThen.
    destruct (f x (get tx)) as [[a [e|]]|e]; try reflexivity.
    rewrite IH. unfold liftField. rewrite get_set.
    destruct (forRange f xs a) as [[a' r]|e]; try reflexivity.
    rewrite set_set. reflexivity.
Qed.

Lemma consistentRun_liftField (f : X -> stfn F) (ok : X -> F -> Prop)
    (xs : list X) (tx : DB) :
  consistentRun (fun x => liftField get set (f x)) (fun x tx => ok x (get tx)) xs tx ->
  consistentRun f ok xs (get tx).
Proof.
  revert tx. induction xs as [|x xs IH]; intros tx H; simpl in *; [exact I|].
  destruct H as [Hok H]. split; [exact Hok|].
  unfold liftField in H.
  destruct (f x (get tx)) as [[a [e|]]|e]; try contradiction.
  apply IH in H. rewrite get_set in H. exact H.
Qed.

Lemma liftField_undo (f g : stfn F) (tx : DB) :
  (exists a', f (get tx) = Ret (a', None) /\ g a' = Ret (get tx, None)) ->
  exists tx1, liftField get set f tx = Ret (tx1, None)
              /\ liftField get set g tx1 = Ret (tx, None).
Proof.
  intros (a' & Hf & Hg). exists (set a' tx). unfold liftField.
  rewrite Hf, get_set, Hg, set_set, set_get. split; reflexivity.
Qed.

(** The diffs of one category, committed and then committed in reverse
    with the opposite direction. *)
Lemma segment_undo (DEBUG : bool) (inj : X -> Diff) (f g : X -> stfn F)
    (ok : X -> F -> Prop) (dir : DiffDirection) :
  (forall x tx, commitDiff DEBUG dir (inj x) tx = liftField get set (f x) tx) ->
  (forall x tx, commitDiff DEBUG (opposite dir) (inj x) tx = liftField get set (g x) tx) ->
  (forall x tx, diffConsistent dir (inj x) tx -> ok x (get tx)) ->
  (forall x a, ok x a -> exists a', f x a = Ret (a', None) /\ g x a' = Ret (a, None)) ->
  forall xs tx,
    diffsConsistent DEBUG (inj <$> xs) dir tx ->
    exists a',
      (forall tx0, get tx0 = get tx ->
         forRange (commitDiff DEBUG dir) (inj <$> xs) tx0 = Ret (set a' tx0, None))
      /\ (forall tx0, get tx0 = a' ->
            forRange (commitDiff DEBUG (opposite dir)) (inj <$> rev xs) tx0
            = Ret (set (get tx) tx0, None)).
Proof.
  intros Hf Hg Hok Hundo xs tx H.
  unfold diffsConsistent in H.
  apply (proj1 (consistentRun_fmap inj _ _ xs tx)) in H.
  apply (consistentRun_ext _ (fun x => liftField get set (f x))
           _ (fun x tx => ok x (get tx))) in H; [|exact Hf|exact Hok].
  apply consistentRun_liftField in H.
  destruct (consistentRun_undo f g ok xs (get tx) Hundo H) as (a' & Hrun & Hback).
  exists a'. split; intros tx0 Htx0.
  - rewrite forRange_fmap.
    rewrite (forRange_ext _ (fun x => liftField get set (f x))) by (intros; apply Hf).
    rewrite forRange_liftField. unfold liftField. rewrite Htx0, Hrun. reflexivity.
  - rewrite forRange_fmap.
    rewrite (forRange_ext _ (fun x => liftField get set (g x))) by (intros; apply Hg).
    rewrite forRange_liftField. unfold liftField. rewrite Htx0, Hback. reflexivity.
Qed.
End Fields.

(** ** A commit and its inverse on one field *)

Lemma bool_decide_opposite (x dir : DiffDirection) :
  bool_decide (x = opposite dir) = negb (bool_decide (x = dir)).
Proof. destruct x, dir; reflexivity. Qed.

Lemma opposite_involutive (dir : DiffDirection) : opposite (opposite dir) = dir.
Proof. destruct dir; reflexivity. Qed.

Section EntryUndo.
Context `{T : Types}.

Lemma entryCommit_undo {V : Type} (forward : bool) (id : N) (v : V) (m : gmap N V) :
  entryConsistent forward id v m ->
  exists m', entryCommit forward id v m = Ret (m', None)
             /\ entryCommit (negb forward) id v m' = Ret (m, None).
Proof.
  unfold entryConsistent, entryCommit. destruct forward; simpl; intros H; rewrite H.
  - eexists. split; [reflexivity|].
    rewrite lookup_insert_eq, delete_insert_id by exact H. reflexivity.
  - eexists. split; [reflexivity|].
    rewrite lookup_delete_eq, insert_delete_id by exact H. reflexivity.
Qed.

Lemma bucketCommit_undo (forward : bool) (bh id : N) (v : SiacoinOutput)
    (m : gmap N (gmap N SiacoinOutput)) :
  bucketConsistent forward bh id v m ->
  exists m', bucketCommit forward bh id v m = Ret (m', None)
             /\ bucketCommit (negb forward) bh id v m' = Ret (m, None).
Proof.
  unfold bucketConsistent, bucketCommit.
  destruct (m !! bh) as [bucket|] eqn:Hb; [|contradiction].
  unfold entryConsistent. intros H.
  eexists. split; [reflexivity|].
  rewrite lookup_insert_eq, insert_insert_eq.
  destruct forward; simpl.
  - rewrite delete_insert_id by exact H. rewrite insert_id by exact Hb. reflexivity.
  - rewrite insert_delete_id by exact H. rewrite insert_id by exact Hb. reflexivity.
Qed.

Variable DEBUG : bool.

Lemma poolCommit_undo (d : SiafundPoolDiff) (dir : DiffDirection) (pool : Currency) :
  poolConsistent d dir pool ->
  exists pool', poolCommit DEBUG d dir pool = Ret (pool', None)
                /\ poolCommit DEBUG d (opposite dir) pool' = Ret (pool, None).
Proof.
  unfold poolConsistent, poolCommit. intros (Hle & Hdir & Hpool).
  rewrite Hdir. simpl.
  replace (sfpdAdjusted d <? sfpdPrevious d) with false
    by (symmetry; apply N.ltb_ge; exact Hle).
  rewrite !andb_false_r.
  destruct dir; simpl; subst pool; rewrite N.eqb_refl; simpl; rewrite andb_false_r;
    (eexists; split; [reflexivity|]);
    rewrite N.eqb_refl; simpl; rewrite andb_false_r; reflexivity.
Qed.

(** Each commit function is the commit on its own field. *)
Lemma commitSiacoinOutputDiff_field (tx : DB) (d : SiacoinOutputDiff) dir :
  commitSiacoinOutputDiff tx d dir
  = liftField SiacoinOutputs setSiacoinOutputs
      (entryCommit (bool_decide (scodDirection d = dir)) (scodID d) (scodSiacoinOutput d)) tx.
Proof.
  unfold commitSiacoinOutputDiff, liftField, entryCommit,
    addSiacoinOutput, removeSiacoinOutput.
  case_bool_decide; [rewrite decide_True by assumption | rewrite decide_False by assumption];
    destruct (SiacoinOutputs tx !! scodID d); reflexivity.
Qed.

Lemma commitFileContractDiff_field (tx : DB) (d : FileContractDiff) dir :
  commitFileContractDiff tx d dir
  = liftField FileContracts setFileContracts
      (entryCommit (bool_decide (fcdDirection d = dir)) (fcdID d) (fcdFileContract d)) tx.
Proof.
  unfold commitFileContractDiff, liftField, entryCommit,
    addFileContract, removeFileContract.
  case_bool_decide; [rewrite decide_True by assumption | rewrite decide_False by assumption];
    destruct (FileContracts tx !! fcdID d); reflexivity.
Qed.

Lemma commitSiafundOutputDiff_field (tx : DB) (d : SiafundOutputDiff) dir :
  commitSiafundOutputDiff tx d dir
  = liftField SiafundOutputs setSiafundOutputs
      (entryCommit (bool_decide (sfodDirection d = dir)) (sfodID d) (sfodSiafundOutput d)) tx.
Proof.
  unfold commitSiafundOutputDiff, liftField, entryCommit,
    addSiafundOutput, removeSiafundOutput.
  case_bool_decide; [rewrite decide_True by assumption | rewrite decide_False by assumption];
    destruct (SiafundOutputs tx !! sfodID d); reflexivity.
Qed.

Lemma commitDelayedSiacoinOutputDiff_field (tx : DB) (d : DelayedSiacoinOutputDiff) dir :
  commitDelayedSiacoinOutputDiff tx d dir
  = liftField DelayedSiacoinOutputs setDelayedSiacoinOutputs
      (bucketCommit (bool_decide (dscodDirection d = dir)) (dscodMaturityHeight d)
         (dscodID d) (dscodSiacoinOutput d)) tx.
Proof.
  unfold commitDelayedSiacoinOutputDiff, liftField, bucketCommit, addDSCO, removeDSCO.
  case_bool_decide; [rewrite decide_True by assumption | rewrite decide_False by assumption];
    destruct (DelayedSiacoinOutputs tx !! dscodMaturityHeight d); try reflexivity.
  all: destruct tx; reflexivity.
Qed.

Lemma commitSiafundPoolDiff_field (tx : DB) (d : SiafundPoolDiff) dir :
  commitSiafundPoolDiff DEBUG tx d dir
  = liftField SiafundPool (fun c tx => setSiafundPool tx c) (poolCommit DEBUG d dir) tx.
Proof.
  unfold commitSiafundPoolDiff, liftField, poolCommit, getSiafundPool.
  repeat match goal with |- context [if ?b then _ else _] => destruct b end;
    reflexivity.
Qed.
End EntryUndo.

(** ** A diff, a category and a node, committed and reverted *)

Section NodeUndo.
Context `{T : Types}.
Variable DEBUG : bool.

Ltac field_laws := intros; repeat match goal with tx : DB |- _ => destruct tx end; reflexivity.

Lemma diff_undo (dir : DiffDirection) (d : Diff) (tx : DB) :
  diffConsistent dir d tx ->
  exists tx1, commitDiff DEBUG dir d tx = Ret (tx1, None)
              /\ commitDiff DEBUG (opposite dir) d tx1 = Ret (tx, None).
Proof.
  destruct d as [x|x|x|x|x]; simpl; intros H.
  - setoid_rewrite commitSiacoinOutputDiff_field. rewrite bool_decide_opposite.
    apply liftField_undo; [field_laws..|]. apply entryCommit_undo, H.
  - setoid_rewrite commitFileContractDiff_field. rewrite bool_decide_opposite.
    apply liftField_undo; [field_laws..|]. apply entryCommit_undo, H.
  - setoid_rewrite commitSiafundOutputDiff_field. rewrite bool_decide_opposite.
    apply liftField_undo; [field_laws..|]. apply entryCommit_undo, H.
  - setoid_rewrite commitDelayedSiacoinOutputDiff_field. rewrite bool_decide_opposite.
    apply liftField_undo; [field_laws..|]. apply bucketCommit_undo, H.
  - setoid_rewrite commitSiafundPoolDiff_field.
    apply (liftField_undo SiafundPool (fun c tx => setSiafundPool tx c)); [field_laws..|].
    apply poolCommit_undo, H.
Qed.

Lemma scod_segment dir (xs : list SiacoinOutputDiff) (tx : DB) :
  diffsConsistent DEBUG (SCOD <$> xs) dir tx ->
  exists a',
    (forall tx0, SiacoinOutputs tx0 = SiacoinOutputs tx ->
       forRange (commitDiff DEBUG dir) (SCOD <$> xs) tx0
       = Ret (setSiacoinOutputs a' tx0, None))
    /\ (forall tx0, SiacoinOutputs tx0 = a' ->
          forRange (commitDiff DEBUG (opposite dir)) (SCOD <$> rev xs) tx0
          = Ret (setSiacoinOutputs (SiacoinOutputs tx) tx0, None)).
Proof.
  apply (segment_undo SiacoinOutputs setSiacoinOutputs) with
    (f := fun x => entryCommit (bool_decide (scodDirection x = dir)) (scodID x)
                     (scodSiacoinOutput x))
    (g := fun x => entryCommit (negb (bool_decide (scodDirection x = dir))) (scodID x)
                     (scodSiacoinOutput x))
    (ok := fun x => entryConsistent (bool_decide (scodDirection x = dir)) (scodID x)
                      (scodSiacoinOutput x)); try field_laws.
  - intros x tx0. apply commitSiacoinOutputDiff_field.
  - intros x tx0. simpl. rewrite commitSiacoinOutputDiff_field, bool_decide_opposite.
    reflexivity.
  - intros x tx0 H. exact H.
  - intros x a. apply entryCommit_undo.
Qed.

Lemma fcd_segment dir (xs : list FileContractDiff) (tx : DB) :
  diffsConsistent DEBUG (FCD <$> xs) dir tx ->
  exists a',
    (forall tx0, FileContracts tx0 = FileContracts tx ->
       forRange (commitDiff DEBUG dir) (FCD <$> xs) tx0
       = Ret (setFileContracts a' tx0, None))
    /\ (forall tx0, FileContracts tx0 = a' ->
          forRange (commitDiff DEBUG (opposite dir)) (FCD <$> rev xs) tx0
          = Ret (setFileContracts (FileContracts tx) tx0, None)).
Proof.
  apply (segment_undo FileContracts setFileContracts) with
    (f := fun x => entryCommit (bool_decide (fcdDirection x = dir)) (fcdID x)
                     (fcdFileContract x))
    (g := fun x => entryCommit (negb (bool_decide (fcdDirection x = dir))) (fcdID x)
                     (fcdFileContract x))
    (ok := fun x => entryConsistent (bool_decide (fcdDirection x = dir)) (fcdID x)
                      (fcdFileContract x)); try field_laws.
  - intros x tx0. apply commitFileContractDiff_field.
  - intros x tx0. simpl. rewrite commitFileContractDiff_field, bool_decide_opposite.
    reflexivity.
  - intros x tx0 H. exact H.
  - intros x a. apply entryCommit_undo.
Qed.

Lemma sfod_segment dir (xs : list SiafundOutputDiff) (tx : DB) :
  diffsConsistent DEBUG (SFOD <$> xs) dir tx ->
  exists a',
    (forall tx0, SiafundOutputs tx0 = SiafundOutputs tx ->
       forRange (commitDiff DEBUG dir) (SFOD <$> xs) tx0
       = Ret (setSiafundOutputs a' tx0, None))
    /\ (forall tx0, SiafundOutputs tx0 = a' ->
          forRange (commitDiff DEBUG (opposite dir)) (SFOD <$> rev xs) tx0
          = Ret (setSiafundOutputs (SiafundOutputs tx) tx0, None)).
Proof.
  apply (segment_undo SiafundOutputs setSiafundOutputs) with
    (f := fun x => entryCommit (bool_decide (sfodDirection x = dir)) (sfodID x)
                     (sfodSiafundOutput x))
    (g := fun x => entryCommit (negb (bool_decide (sfodDirection x = dir))) (sfodID x)
                     (sfodSiafundOutput x))
    (ok := fun x => entryConsistent (bool_decide (sfodDirection x = dir)) (sfodID x)
                      (sfodSiafundOutput x)); try field_laws.
  - intros x tx0. apply commitSiafundOutputDiff_field.
  - intros x tx0. simpl. rewrite commitSiafundOutputDiff_field, bool_decide_opposite.
    reflexivity.
  - intros x tx0 H. exact H.
  - intros x a. apply entryCommit_undo.
Qed.

Lemma dscod_segment dir (xs : list DelayedSiacoinOutputDiff) (tx : DB) :
  diffsConsistent DEBUG (DSCOD <$> xs) dir tx ->
  exists a',
    (forall tx0, DelayedSiacoinOutputs tx0 = DelayedSiacoinOutputs tx ->
       forRange (commitDiff DEBUG dir) (DSCOD <$> xs) tx0
       = Ret (setDelayedSiacoinOutputs a' tx0, None))
    /\ (forall tx0, DelayedSiacoinOutputs tx0 = a' ->
          forRange (commitDiff DEBUG (opposite dir)) (DSCOD <$> rev xs) tx0
          = Ret (setDelayedSiacoinOutputs (DelayedSiacoinOutputs tx) tx0, None)).
Proof.
  apply (segment_undo DelayedSiacoinOutputs setDelayedSiacoinOutputs) with
    (f := fun x => bucketCommit (bool_decide (dscodDirection x = dir))
                     (dscodMaturityHeight x) (dscodID x) (dscodSiacoinOutput x))
    (g := fun x => bucketCommit (negb (bool_decide (dscodDirection x = dir)))
                     (dscodMaturityHeight x) (dscodID x) (dscodSiacoinOutput x))
    (ok := fun x => bucketConsistent (bool_decide (dscodDirection x = dir))
                      (dscodMaturityHeight x) (dscodID x) (dscodSiacoinOutput x));
    try field_laws.
  - intros x tx0. apply commitDelayedSiacoinOutputDiff_field.
  - intros x tx0. simpl.
    rewrite commitDelayedSiacoinOutputDiff_field, bool_decide_opposite. reflexivity.
  - intros x tx0 H. exact H.
  - intros x a. apply bucketCommit_undo.
Qed.

Lemma sfpd_segment dir (xs : list SiafundPoolDiff) (tx : DB) :
  diffsConsistent DEBUG (SFPD <$> xs) dir tx ->
  exists a',
    (forall tx0, SiafundPool tx0 = SiafundPool tx ->
       forRange (commitDiff DEBUG dir) (SFPD <$> xs) tx0
       = Ret (setSiafundPool tx0 a', None))
    /\ (forall tx0, SiafundPool tx0 = a' ->
          forRange (commitDiff DEBUG (opposite dir)) (SFPD <$> rev xs) tx0
          = Ret (setSiafundPool tx0 (SiafundPool tx), None)).
Proof.
  apply (segment_undo SiafundPool (fun c tx => setSiafundPool tx c)) with
    (f := fun x => poolCommit DEBUG x dir)
    (g := fun x => poolCommit DEBUG x (opposite dir))
    (ok := fun x => poolConsistent x dir); try field_laws.
  - intros x tx0. apply commitSiafundPoolDiff_field.
  - intros x tx0. apply commitSiafundPoolDiff_field.
  - intros x tx0 H. exact H.
  - intros x a. apply poolCommit_undo.
Qed.
(** The diffs of a node, applied to a storage they are consistent with,
    are all committed, touch neither the path nor the block map, and are
    undone by committing the node in the revert direction, whatever
    happened to the path in between. *)
Lemma commitNodeDiffsTx_undo (pb : processedBlock) (tx : DB) :
  diffsConsistent DEBUG (categoryOrder pb DiffApply) DiffApply tx ->
  exists tx',
    commitNodeDiffsTx DEBUG pb DiffApply tx = Ret (tx', None)
    /\ BlockPath tx' = BlockPath tx
    /\ BlockMap tx' = BlockMap tx
    /\ forall p, commitNodeDiffsTx DEBUG pb DiffRevert (setBlockPath p tx')
                 = Ret (setBlockPath p tx, None).
Proof.
  intros H. unfold categoryOrder in H. simpl in H.
  apply consistentRun_app in H as [HS H].
  destruct (scod_segment _ _ _ HS) as (aS & HSrun & HSback).
  specialize (H _ (HSrun tx eq_refl)).
  apply consistentRun_app in H as [HF H].
  destruct (fcd_segment _ _ _ HF) as (aF & HFrun & HFback).
  specialize (H _ (HFrun _ eq_refl)).
  apply consistentRun_app in H as [HU H].
  destruct (sfod_segment _ _ _ HU) as (aU & HUrun & HUback).
  specialize (H _ (HUrun _ eq_refl)).
  apply consistentRun_app in H as [HD HP].
  destruct (dscod_segment _ _ _ HD) as (aD & HDrun & HDback).
  specialize (HP _ (HDrun _ eq_refl)).
  destruct (sfpd_segment _ _ _ HP) as (aP & HPrun & HPback).
  eexists. split; [|split; [|split]].
  - rewrite commitNodeDiffsTx_forRange. unfold categoryOrder. simpl.
    rewrite forRange_app. unfold andThen. rewrite (HSrun _ eq_refl).
    rewrite forRange_app. unfold andThen. rewrite (HFrun _ eq_refl).
    rewrite forRange_app. unfold andThen. rewrite (HUrun _ eq_refl).
    rewrite forRange_app. unfold andThen. rewrite (HDrun _ eq_refl).
    rewrite (HPrun _ eq_refl). reflexivity.
  - reflexivity.
  - reflexivity.
  - intros p. rewrite commitNodeDiffsTx_forRange. unfold categoryOrder. simpl.
    rewrite forRange_app. unfold andThen. rewrite HSback by reflexivity.
    rewrite forRange_app. unfold andThen. rewrite HFback by reflexivity.
    rewrite forRange_app. unfold andThen. rewrite HUback by reflexivity.
    rewrite forRange_app. unfold andThen. rewrite HDback by reflexivity.
    rewrite HPback by reflexivity. destruct tx. reflexivity.
Qed.
End NodeUndo.

(** ** A block applied and reverted *)

Section BlockUndo.
Context `{T : Types}.
Variable DEBUG : bool.
Variable MaturityDelay : BlockHeight.

Lemma createDSCOBucket_Ret (tx tx1 : DB) (h : BlockHeight) :
  createDSCOBucket tx h = Ret (tx1, None) ->
  DelayedSiacoinOutputs tx !! h = None
  /\ tx1 = setDelayedSiacoinOutputs (<[h := ∅]> (DelayedSiacoinOutputs tx)) tx.
Proof.
  unfold createDSCOBucket. destruct (DelayedSiacoinOutputs tx !! h); [discriminate|].
  intros H. inversion H. auto.
Qed.

Lemma pushed_tip (p : gmap N N) (bid : BlockID) :
  p !! N.of_nat (size p) = None ->
  N.pred (N.of_nat (size (<[N.of_nat (size p) := bid]> p))) = N.of_nat (size p).
Proof.
  intros H. rewrite map_size_insert_None by exact H. lia.
Qed.

Lemma sanity_revert_after_push (d : DB) (pb : processedBlock) :
  (DEBUG = true -> DiffsGenerated pb = true) ->
  BlockPath d !! N.of_nat (size (BlockPath d)) = None ->
  forall d', BlockPath d' = <[N.of_nat (size (BlockPath d)) := ID (pbBlock pb)]> (BlockPath d) ->
  commitDiffSetSanity DEBUG d' pb DiffRevert = Ret ().
Proof.
  intros Hgen Hp d' Hd'. unfold commitDiffSetSanity.
  destruct DEBUG; [|reflexivity].
  rewrite Hgen by reflexivity. simpl.
  unfold currentBlockID. rewrite Hd', pushed_tip by exact Hp.
  rewrite lookup_insert_eq. simpl. rewrite decide_True by reflexivity. reflexivity.
Qed.

Lemma sanity_generated (d : DB) (pb : processedBlock) (dir : DiffDirection) :
  commitDiffSetSanity DEBUG d pb dir = Ret () ->
  DEBUG = true -> DiffsGenerated pb = true.
Proof.
  unfold commitDiffSetSanity. intros H ->.
  destruct (DiffsGenerated pb); [reflexivity|discriminate].
Qed.

(** Reverting a node that was applied faithfully restores the storage. *)
Lemma commitDiffSet_apply_revert (d s1 : DB) (pb : processedBlock) :
  commitDiffSet DEBUG MaturityDelay d pb DiffApply = Ret (s1, None) ->
  appliesFaithfully DEBUG MaturityDelay d pb ->
  commitDiffSet DEBUG MaturityDelay s1 pb DiffRevert = Ret (d, None).
Proof.
  intros Happly (d1 & d2 & Hcreate & Hcons & Hcommit & Hbucket & Hpath).
  destruct (commitNodeDiffsTx_undo DEBUG pb d1 Hcons) as (d2' & Hc' & Hp2 & Hm2 & Hback).
  rewrite Hcommit in Hc'. inversion Hc'; subst d2'. clear Hc'.
  unfold createUpcomingDelayedOutputMaps in Hcreate. simpl in Hcreate.
  apply createDSCOBucket_Ret in Hcreate as [Hfresh Hd1].
  unfold commitDiffSet in Happly.
  destruct (commitDiffSetSanity DEBUG d pb DiffApply) as [[]|e] eqn:Hsan; [|discriminate].
  unfold Update, createUpcomingDelayedOutputMaps in Happly. simpl in Happly.
  unfold createDSCOBucket in Happly. rewrite Hfresh in Happly.
  rewrite <- Hd1 in Happly.
  unfold commitNodeDiffs, Update in Happly. rewrite Hcommit in Happly.
  assert (Hs1 : s1 = setBlockPath
                       (<[N.of_nat (size (BlockPath d)) := ID (pbBlock pb)]> (BlockPath d))
                       (if MaturityDelay <? Height pb
                        then rmDelayedSiacoinOutputs d2 (Height pb) else d2)).
  { unfold deleteObsoleteDelayedOutputMaps in Happly. simpl in Happly.
    assert (Hpd : BlockPath d2 = BlockPath d) by (rewrite Hp2, Hd1; reflexivity).
    destruct (MaturityDelay <? Height pb) eqn:Hlt.
    - destruct (DEBUG && _); [discriminate|].
      unfold updateCurrentPath, pushPath in Happly. simpl in Happly.
      rewrite Hpd in Happly. inversion Happly. reflexivity.
    - unfold updateCurrentPath, pushPath in Happly. simpl in Happly.
      rewrite Hpd in Happly. inversion Happly. reflexivity. }
  clear Happly.
  set (p' := <[N.of_nat (size (BlockPath d)) := ID (pbBlock pb)]> (BlockPath d)) in *.
  unfold commitDiffSet.
  rewrite (sanity_revert_after_push d pb (sanity_generated _ _ _ Hsan) Hpath)
    by (subst s1; reflexivity).
  assert (Hup : Update (fun tx => createUpcomingDelayedOutputMaps MaturityDelay tx pb DiffRevert) s1
                = Ret (setBlockPath p' d2, None)).
  { unfold Update, createUpcomingDelayedOutputMaps. simpl. subst s1.
    destruct (MaturityDelay <? Height pb) eqn:Hlt.
    - apply N.ltb_lt in Hlt. specialize (Hbucket Hlt).
      unfold createDSCOBucket. simpl. rewrite lookup_delete_eq.
      rewrite insert_delete_id by exact Hbucket. destruct d2; reflexivity.
    - reflexivity. }
  rewrite Hup. unfold commitNodeDiffs, Update. rewrite Hback.
  unfold deleteObsoleteDelayedOutputMaps. simpl.
  unfold lenDelayedSiacoinOutputsHeight. rewrite Hd1. simpl.
  rewrite lookup_insert_eq. rewrite map_size_empty. simpl. rewrite andb_false_r.
  unfold updateCurrentPath, popPath, rmDelayedSiacoinOutputs,
    setBlockPath, setDelayedSiacoinOutputs.
  cbn [BlockPath DelayedSiacoinOutputs SiacoinOutputs FileContracts SiafundOutputs
       SiafundPool BlockMap].
  unfold p'. rewrite pushed_tip by exact Hpath.
  rewrite !delete_insert_id by assumption. destruct d; reflexivity.
Qed.
End BlockUndo.

(** * The statements of the specification *)

Section Claims.
Context `{T : Types}.
Variable DEBUG : bool.
Variable MaturityDelay : BlockHeight.

(** C5: when applying, [commitNodeDiffs] commits the five collections in
    the fixed category order siacoin outputs, file contracts, siafund
    outputs, delayed siacoin outputs, siafund pool, each in insertion
    order; when reverting it takes the categories in the same order and
    each collection from its last diff to its first. *)
Theorem commitNodeDiffs_category_order (d : DB) (pb : processedBlock) :
  commitNodeDiffs DEBUG d pb DiffApply
  = Update (forRange (commitDiff DEBUG DiffApply)
              ((SCOD <$> SiacoinOutputDiffs pb)
               ++ (FCD <$> FileContractDiffs pb)
               ++ (SFOD <$> SiafundOutputDiffs pb)
               ++ (DSCOD <$> DelayedSiacoinOutputDiffs pb)
               ++ (SFPD <$> SiafundPoolDiffs pb))) d
  /\ commitNodeDiffs DEBUG d pb DiffRevert
     = Update (forRange (commitDiff DEBUG DiffRevert)
                 ((SCOD <$> rev (SiacoinOutputDiffs pb))
                  ++ (FCD <$> rev (FileContractDiffs pb))
                  ++ (SFOD <$> rev (SiafundOutputDiffs pb))
                  ++ (DSCOD <$> rev (DelayedSiacoinOutputDiffs pb))
                  ++ (SFPD <$> rev (SiafundPoolDiffs pb)))) d.
Proof.
  split; unfold commitNodeDiffs, Update; rewrite commitNodeDiffsTx_forRange;
    unfold categoryOrder, inDirection;
    match goal with |- context [forRange ?f ?l d] =>
      destruct (forRange f l d) as [[d' [e|]]|e] end; reflexivity.
Qed.

Lemma commitNodeDiffs_Update (d : DB) (pb : processedBlock) (dir : DiffDirection) :
  commitNodeDiffs DEBUG d pb dir = Update (commitNodeDiffsTx DEBUG pb dir) d.
Proof.
  unfold commitNodeDiffs. destruct (Update _ d) as [[d' [e|]]|e]; reflexivity.
Qed.


(** C9 (amended): when the commit of the node's diffs returns an error,
    [commitDiffSet] drops it.  On the database the rolled-back commit left
    untouched it goes on to delete the obsolete delayed output map, where,
    with [build.DEBUG] on, a bucket that is not empty makes it panic with
    [errDeletingNonEmptyDelayedMap]; otherwise it updates the current path
    and returns [nil].  The error of the commit is never returned. *)
Theorem commitDiffSet_discards_commit_error (d d1 d2 : DB) (pb : processedBlock)
    (dir : DiffDirection) (e : error) :
  commitDiffSetSanity DEBUG d pb dir = Ret () ->
  Update (fun tx => createUpcomingDelayedOutputMaps MaturityDelay tx pb dir) d
    = Ret (d1, None) ->
  commitNodeDiffs DEBUG d1 pb dir = Ret (d2, Some e) ->
  d2 = d1
  /\ commitDiffSet DEBUG MaturityDelay d pb dir
     = match deleteObsoleteDelayedOutputMaps DEBUG MaturityDelay d1 pb dir with
       | Panic e' => Panic e'
       | Ret d3 =>
           match updateCurrentPath DEBUG d3 pb dir with
           | Panic e' => Panic e'
           | Ret d4 => Ret (d4, None)
           end
       end
  /\ (forall d4 r, commitDiffSet DEBUG MaturityDelay d pb dir = Ret (d4, r) -> r = None)
  /\ commitDiffSet DEBUG MaturityDelay d pb dir
     = match dir with
       | DiffApply =>
           if MaturityDelay <? Height pb then
             if DEBUG && negb (lenDelayedSiacoinOutputsHeight d1 (Height pb) =? 0)
             then Panic errDeletingNonEmptyDelayedMap
             else Ret (fst (pushPath (rmDelayedSiacoinOutputs d1 (Height pb))
                              (ID (pbBlock pb))), None)
           else Ret (fst (pushPath d1 (ID (pbBlock pb))), None)
       | DiffRevert =>
           if DEBUG && negb (lenDelayedSiacoinOutputsHeight d1
                               (height_add (Height pb) MaturityDelay) =? 0)
           then Panic errDeletingNonEmptyDelayedMap
           else Ret (fst (popPath (rmDelayedSiacoinOutputs d1
                                     (height_add (Height pb) MaturityDelay))), None)
       end.
Proof.
  intros Hsan Hup Hcommit.
  assert (Hd2 : d2 = d1).
  { rewrite commitNodeDiffs_Update in Hcommit. unfold Update in Hcommit.
    destruct (commitNodeDiffsTx DEBUG pb dir d1) as [[d' [e1|]]|e1];
      inversion Hcommit; reflexivity. }
  subst d2.
  assert (Heq : commitDiffSet DEBUG MaturityDelay d pb dir
                = match deleteObsoleteDelayedOutputMaps DEBUG MaturityDelay d1 pb dir with
                  | Panic e' => Panic e'
                  | Ret d3 =>
                      match updateCurrentPath DEBUG d3 pb dir with
                      | Panic e' => Panic e'
                      | Ret d4 => Ret (d4, None)
                      end
                  end).
  { unfold commitDiffSet. rewrite Hsan, Hup, Hcommit. reflexivity. }
  split; [reflexivity|]. split; [exact Heq|]. split.
  - intros d4 r. rewrite Heq.
    destruct (deleteObsoleteDelayedOutputMaps DEBUG MaturityDelay d1 pb dir) as [d3|e3];
      [|discriminate].
    destruct (updateCurrentPath DEBUG d3 pb dir) as [d5|e5]; [|discriminate].
    intros H. inversion H. reflexivity.
  - rewrite Heq. unfold deleteObsoleteDelayedOutputMaps, updateCurrentPath.
    destruct dir; simpl.
    + destruct (MaturityDelay <? Height pb); [|reflexivity].
      destruct (DEBUG && _); reflexivity.
    + destruct (DEBUG && _); reflexivity.
Qed.
End Claims.


Lemma commitDiffSet_discards_commit_error_witness :
  exists d4, commitDiffSet true 3 Ex.drained Ex.badBucketAtFive DiffApply = Ret (d4, None)
             /\ SiacoinOutputs d4 = ∅
             /\ DelayedSiacoinOutputs Ex.drained !! 5 = Some ∅
             /\ DelayedSiacoinOutputs d4 !! 5 = None
             /\ BlockPath d4 !! 5 = Some 15.
Proof.
  destruct (commitDiffSet_discards_commit_error true 3 Ex.drained
              (setDelayedSiacoinOutputs {[ 5 := ∅; 8 := ∅ ]} Ex.drained)
              (setDelayedSiacoinOutputs {[ 5 := ∅; 8 := ∅ ]} Ex.drained)
              Ex.badBucketAtFive DiffApply errBadMaturityHeight)
    as (_ & _ & _ & Heq).
  - reflexivity.
  - reflexivity.
  - reflexivity.
  - rewrite Heq. eexists. split; [reflexivity|].
    split; [reflexivity|]. split; [reflexivity|]. split; reflexivity.
Defined.

(** C9 as stated fails when [build.DEBUG] is on and the bucket of the
    block's height still holds an output: the commit of the node's diffs
    returns an error and is rolled back, so the bucket is not drained, and
    the deletion that follows panics: [commitDiffSet] does not return
    [nil]. *)
Lemma commitDiffSet_discards_commit_error_counterexample :
  commitDiffSetSanity true Ex.atHeight4 Ex.badBucketAtFive DiffApply = Ret ()
  /\ Update (fun tx => createUpcomingDelayedOutputMaps 3 tx Ex.badBucketAtFive DiffApply)
       Ex.atHeight4
     = Ret (setDelayedSiacoinOutputs {[ 5 := {[ 7 := 50 ]}; 8 := ∅ ]} Ex.atHeight4, None)
  /\ commitNodeDiffs true
       (setDelayedSiacoinOutputs {[ 5 := {[ 7 := 50 ]}; 8 := ∅ ]} Ex.atHeight4)
       Ex.badBucketAtFive DiffApply
     = Ret (setDelayedSiacoinOutputs {[ 5 := {[ 7 := 50 ]}; 8 := ∅ ]} Ex.atHeight4,
            Some errBadMaturityHeight)
  /\ commitDiffSet true 3 Ex.atHeight4 Ex.badBucketAtFive DiffApply
     = Panic errDeletingNonEmptyDelayedMap.
Proof.
  split; [reflexivity|]. split; [reflexivity|]. split; reflexivity.
Qed.

Section RoundTrip.
Context `{T : Types}.
Variable DEBUG : bool.

(** C3 (amended): for a diff of any of the five kinds and any direction,
    if the diff is consistent with the storage (the entity it inserts is
    not stored, the entity it removes is stored with the value the diff
    carries, the pool diff is well formed and starts from the stored
    pool), then committing it and committing it again with the opposite
    direction both succeed and restore the storage exactly.  The commit
    performs the forward action when the diff's direction is the requested
    one and the inverse action otherwise; for the pool this holds for the
    consistent diffs. *)
Theorem commit_then_opposite_restores (dir : DiffDirection) (d : Diff) (tx : DB) :
  ((forall sfpd, d <> SFPD sfpd) \/ diffConsistent dir d tx ->
   commitDiff DEBUG dir d tx
   = if decide (diffDirection d = dir) then forwardAction d tx else inverseAction d tx)
  /\ (diffConsistent dir d tx ->
      exists tx1, commitDiff DEBUG dir d tx = Ret (tx1, None)
                  /\ commitDiff DEBUG (opposite dir) d tx1 = Ret (tx, None)).
Proof.
  split; [|apply diff_undo].
  destruct d as [x|x|x|x|x]; simpl; intros H; try reflexivity.
  destruct H as [H|H]; [exfalso; exact (H x eq_refl)|].
  destruct H as (Hle & Hdir & Hpool).
  unfold commitSiafundPoolDiff. rewrite Hdir, Hpool. simpl.
  replace (sfpdAdjusted x <? sfpdPrevious x) with false
    by (symmetry; apply N.ltb_ge; exact Hle).
  rewrite !andb_false_r.
  destruct dir; simpl; rewrite N.eqb_refl; simpl; rewrite andb_false_r; reflexivity.
Qed.
End RoundTrip.

Lemma commit_then_opposite_restores_witness :
  exists tx1,
    commitDiff true DiffRevert (SCOD (Ex.scod DiffApply 1 5))
      (Ex.storage {[ 1 := 5 ]} ∅ 100 {[ 0 := 10 ]}) = Ret (tx1, None)
    /\ commitDiff true DiffApply (SCOD (Ex.scod DiffApply 1 5)) tx1
       = Ret (Ex.storage {[ 1 := 5 ]} ∅ 100 {[ 0 := 10 ]}, None).
Proof.
  apply (proj2 (commit_then_opposite_restores true DiffRevert
                  (SCOD (Ex.scod DiffApply 1 5))
                  (Ex.storage {[ 1 := 5 ]} ∅ 100 {[ 0 := 10 ]}))).
  reflexivity.
Defined.

(** C3 as stated fails: the stored output 1 has value 5, the diff records
    value 7.  Reverting the diff removes the output, applying it again
    stores value 7: both commits succeed and the storage is not the one the
    round trip started from. *)
Lemma commit_then_opposite_restores_counterexample :
  exists tx1 tx2,
    commitSiacoinOutputDiff (Ex.storage {[ 1 := 5 ]} ∅ 100 {[ 0 := 10 ]})
      (Ex.scod DiffApply 1 7) DiffRevert = Ret (tx1, None)
    /\ commitSiacoinOutputDiff tx1 (Ex.scod DiffApply 1 7) (opposite DiffRevert)
       = Ret (tx2, None)
    /\ SiacoinOutputs tx2 !! 1 = Some 7
    /\ tx2 <> Ex.storage {[ 1 := 5 ]} ∅ 100 {[ 0 := 10 ]}.
Proof.
  eexists. eexists. split; [reflexivity|]. split; [reflexivity|].
  split; [reflexivity|].
  intros H. apply (f_equal (fun tx => SiacoinOutputs tx !! 1)) in H.
  vm_compute in H. discriminate H.
Qed.

Section BlockRoundTrip.
Context `{T : Types}.
Variable DEBUG : bool.
Variable MaturityDelay : BlockHeight.

(** C2 (amended): for every block applied with [commitDiffSet] that
    applies faithfully (its diffs, in the order of application, are
    consistent with the storage; the bucket consumed at its height, if
    any, is present and empty once the diffs are committed; the path has
    no entry above its tip), reverting it with [commitDiffSet] succeeds
    and yields a storage identical to the one before the block was
    applied: outputs, contracts, delayed outputs, pool, path and block
    map. *)
Theorem block_apply_then_revert (d s1 : DB) (pb : processedBlock) :
  commitDiffSet DEBUG MaturityDelay d pb DiffApply = Ret (s1, None) ->
  appliesFaithfully DEBUG MaturityDelay d pb ->
  commitDiffSet DEBUG MaturityDelay s1 pb DiffRevert = Ret (d, None).
Proof. apply commitDiffSet_apply_revert. Qed.
End BlockRoundTrip.

Lemma maturing_appliesFaithfully : appliesFaithfully true 3 Ex.atHeight4 Ex.maturing.
Proof.
  unfold appliesFaithfully. eexists. eexists.
  split; [reflexivity|]. split; [|split; [reflexivity|split]].
  - vm_compute. repeat split; discriminate.
  - intros _. reflexivity.
  - reflexivity.
Defined.

Lemma block_apply_then_revert_witness :
  exists s1, commitDiffSet true 3 Ex.atHeight4 Ex.maturing DiffApply = Ret (s1, None)
             /\ SiacoinOutputs s1 !! 7 = Some 50
             /\ commitDiffSet true 3 s1 Ex.maturing DiffRevert = Ret (Ex.atHeight4, None).
Proof.
  eexists. split; [reflexivity|]. split; [reflexivity|].
  apply (block_apply_then_revert true 3 Ex.atHeight4 _ Ex.maturing).
  - reflexivity.
  - exact maturing_appliesFaithfully.
Defined.

(** C2 as stated fails: the node spends output 1 and records the value 7,
    the storage holds the value 5.  Applying removes output 1, reverting
    stores it with value 7: both calls succeed, with the sanity checks on,
    and the storage is not the one before the block was applied. *)
Lemma block_apply_then_revert_counterexample :
  exists s1 s2,
    commitDiffSet true 3 Ex.holding Ex.spending DiffApply = Ret (s1, None)
    /\ commitDiffSet true 3 s1 Ex.spending DiffRevert = Ret (s2, None)
    /\ SiacoinOutputs Ex.holding !! 1 = Some 5
    /\ SiacoinOutputs s2 !! 1 = Some 7
    /\ s2 <> Ex.holding.
Proof.
  eexists. eexists. split; [reflexivity|]. split; [reflexivity|].
  split; [reflexivity|]. split; [reflexivity|].
  intros H. apply (f_equal (fun tx => SiacoinOutputs tx !! 1)) in H.
  vm_compute in H. discriminate H.
Qed.

(** ** Invariants of a run *)

Lemma forRange_preserves {St A : Type} (R : St -> St -> Prop) (body : A -> stfn St)
    (xs : list A) :
  (forall s, R s s) -> (forall s1 s2 s3, R s1 s2 -> R s2 s3 -> R s1 s3) ->
  (forall x s s' r, body x s = Ret (s', r) -> R s s') ->
  forall s s' r, forRange body xs s = Ret (s', r) -> R s s'.
Proof.
  intros Hrefl Htrans Hstep. induction xs as [|x xs IH]; intros s s' r; simpl.
  - unfold returnNil. intros H. inversion H. apply Hrefl.
  - unfold andThen. destruct (body x s) as [[s1 [e|]]|e] eqn:Hx; intros H.
    + inversion H; subst. eapply Hstep, Hx.
    + eapply Htrans; [eapply Hstep, Hx | eapply IH, H].
    + discriminate.
Qed.

Section Pool.
Context `{T : Types}.
Variable MaturityDelay : BlockHeight.

Lemma commitSiafundPoolDiff_checked (tx tx' : DB) (sfpd : SiafundPoolDiff)
    (dir : DiffDirection) (r : option error) :
  commitSiafundPoolDiff true tx sfpd dir = Ret (tx', r) ->
  r = None
  /\ sfpdPrevious sfpd <= sfpdAdjusted sfpd
  /\ sfpdDirection sfpd = DiffApply
  /\ match dir with
     | DiffApply =>
         getSiafundPool tx = sfpdPrevious sfpd
         /\ tx' = setSiafundPool tx (sfpdAdjusted sfpd)
     | DiffRevert =>
         getSiafundPool tx = sfpdAdjusted sfpd
         /\ tx' = setSiafundPool tx (sfpdPrevious sfpd)
     end.
Proof.
  unfold commitSiafundPoolDiff. simpl.
  destruct (sfpdAdjusted sfpd <? sfpdPrevious sfpd) eqn:Hlt; [discriminate|].
  apply N.ltb_ge in Hlt.
  case_bool_decide as Hdir; simpl; [|discriminate].
  destruct dir; simpl.
  - destruct (getSiafundPool tx =? sfpdPrevious sfpd) eqn:Heq; simpl; [|discriminate].
    apply N.eqb_eq in Heq. intros H. inversion H. auto.
  - destruct (getSiafundPool tx =? sfpdAdjusted sfpd) eqn:Heq; simpl; [|discriminate].
    apply N.eqb_eq in Heq. intros H. inversion H. auto.
Qed.

Lemma commitDiff_pool_grows (d : Diff) (tx tx' : DB) (r : option error) :
  commitDiff true DiffApply d tx = Ret (tx', r) -> SiafundPool tx <= SiafundPool tx'.
Proof.
  destruct d as [x|x|x|x|x]; simpl.
  - rewrite commitSiacoinOutputDiff_field. unfold liftField.
    destruct (entryCommit _ _ _ _) as [[a r']|e]; [|discriminate].
    intros H. inversion H. simpl. lia.
  - rewrite commitFileContractDiff_field. unfold liftField.
    destruct (entryCommit _ _ _ _) as [[a r']|e]; [|discriminate].
    intros H. inversion H. simpl. lia.
  - rewrite commitSiafundOutputDiff_field. unfold liftField.
    destruct (entryCommit _ _ _ _) as [[a r']|e]; [|discriminate].
    intros H. inversion H. simpl. lia.
  - rewrite commitDelayedSiacoinOutputDiff_field. unfold liftField.
    destruct (bucketCommit _ _ _ _ _) as [[a r']|e]; [|discriminate].
    intros H. inversion H. simpl. lia.
  - intros H. apply commitSiafundPoolDiff_checked in H
      as (_ & Hle & _ & Hpool & Htx'). unfold getSiafundPool in Hpool.
    subst tx'. simpl. lia.
Qed.

Lemma commitDiffSet_pool_grows (d d' : DB) (pb : processedBlock) (r : option error) :
  commitDiffSet true MaturityDelay d pb DiffApply = Ret (d', r) ->
  SiafundPool d <= SiafundPool d'.
Proof.
  unfold commitDiffSet.
  destruct (commitDiffSetSanity true d pb DiffApply) as [[]|e]; [|discriminate].
  unfold Update at 1, createUpcomingDelayedOutputMaps. simpl.
  unfold createDSCOBucket.
  destruct (DelayedSiacoinOutputs d !! _).
  { intros H. inversion H. lia. }
  unfold commitNodeDiffs, Update.
  set (d1 := setDelayedSiacoinOutputs _ d).
  assert (Hd1 : SiafundPool d <= SiafundPool d1) by (simpl; lia).
  assert (Hrun : forall d2 r2, commitNodeDiffsTx true pb DiffApply d1 = Ret (d2, r2) ->
                               SiafundPool d1 <= SiafundPool d2).
  { intros d2 r2. rewrite commitNodeDiffsTx_forRange.
    apply (forRange_preserves (fun a b : DB => SiafundPool a <= SiafundPool b)).
    - intros; lia.
    - intros; lia.
    - intros x s s' r'. apply commitDiff_pool_grows. }
  destruct (commitNodeDiffsTx true pb DiffApply d1) as [[d2 [e2|]]|e2] eqn:Htx;
    [| |discriminate].
  - unfold deleteObsoleteDelayedOutputMaps, updateCurrentPath, pushPath. simpl.
    destruct (MaturityDelay <? Height pb).
    + destruct (negb _); [discriminate|]. intros H. inversion H. simpl in *. lia.
    + intros H. inversion H. simpl in *. lia.
  - specialize (Hrun _ _ eq_refl).
    unfold deleteObsoleteDelayedOutputMaps, updateCurrentPath, pushPath. simpl.
    destruct (MaturityDelay <? Height pb).
    + destruct (negb _); [discriminate|]. intros H. inversion H. simpl in *. lia.
    + intros H. inversion H. simpl in *. lia.
Qed.

(** C7 (amended): with the sanity checks on ([build.DEBUG]), committing a
    siafund pool diff requires adjusted >= previous and the apply tag;
    applying requires the stored pool to equal previous and sets it to
    adjusted; reverting requires the stored pool to equal adjusted and
    sets it to previous; any mismatch is a panic; so the pool never
    decreases over a sequence of blocks applied with [commitDiffSet]. *)
Theorem siafund_pool_checked_and_monotone :
  (forall (tx tx' : DB) sfpd dir r,
      commitSiafundPoolDiff true tx sfpd dir = Ret (tx', r) ->
      r = None
      /\ sfpdPrevious sfpd <= sfpdAdjusted sfpd
      /\ sfpdDirection sfpd = DiffApply
      /\ match dir with
         | DiffApply =>
             getSiafundPool tx = sfpdPrevious sfpd
             /\ tx' = setSiafundPool tx (sfpdAdjusted sfpd)
         | DiffRevert =>
             getSiafundPool tx = sfpdAdjusted sfpd
             /\ tx' = setSiafundPool tx (sfpdPrevious sfpd)
         end)
  /\ (forall (tx : DB) sfpd dir,
        sfpdAdjusted sfpd < sfpdPrevious sfpd
        \/ sfpdDirection sfpd <> DiffApply
        \/ getSiafundPool tx <> match dir with
                                | DiffApply => sfpdPrevious sfpd
                                | DiffRevert => sfpdAdjusted sfpd
                                end ->
        exists e, commitSiafundPoolDiff true tx sfpd dir = Panic e)
  /\ (forall pbs (d d' : DB),
        applyBlocks true MaturityDelay pbs d = Ret d' -> SiafundPool d <= SiafundPool d').
Proof.
  split; [exact commitSiafundPoolDiff_checked|]. split.
  - intros tx sfpd dir Hbad.
    destruct (commitSiafundPoolDiff true tx sfpd dir) as [[tx' r]|e] eqn:Hc;
      [|eexists; reflexivity].
    apply commitSiafundPoolDiff_checked in Hc as (_ & Hle & Hdir & Hpool).
    exfalso. destruct Hbad as [Hlt|[Hnd|Hne]].
    + lia.
    + exact (Hnd Hdir).
    + destruct dir; destruct Hpool as [Hp _]; exact (Hne Hp).
  - induction pbs as [|pb pbs IH]; intros d d'; simpl.
    + intros H. inversion H. lia.
    + destruct (commitDiffSet true MaturityDelay d pb DiffApply) as [[d1 r]|e] eqn:Hc;
        [|discriminate].
      intros H. apply commitDiffSet_pool_grows in Hc. apply IH in H. lia.
Qed.
End Pool.

Lemma siafund_pool_checked_and_monotone_witness :
  exists d', applyBlocks true 3 [Ex.maturing] Ex.atHeight4 = Ret d'
             /\ SiafundPool d' = 120
             /\ SiafundPool Ex.atHeight4 <= SiafundPool d'.
Proof.
  eexists. split; [reflexivity|]. split; [reflexivity|].
  apply (proj2 (proj2 (siafund_pool_checked_and_monotone 3)) [Ex.maturing]).
  reflexivity.
Defined.

(** C7 as stated fails when [build.DEBUG] is off: a pool diff with
    adjusted < previous, the revert tag and a previous value that is not the
    stored pool is committed, and the pool goes down from 100 to 50 when its
    node is applied. *)
Lemma siafund_pool_checked_and_monotone_counterexample :
  commitSiafundPoolDiff false Ex.atGenesis Ex.lowering DiffApply
  = Ret (setSiafundPool Ex.atGenesis 50, None)
  /\ sfpdAdjusted Ex.lowering < sfpdPrevious Ex.lowering
  /\ sfpdDirection Ex.lowering = DiffRevert
  /\ exists d', applyBlocks false 3 [Ex.loweringNode] Ex.atGenesis = Ret d'
                /\ SiafundPool Ex.atGenesis = 100
                /\ SiafundPool d' = 50.
Proof.
  split; [reflexivity|]. split; [reflexivity|]. split; [reflexivity|].
  eexists. split; [reflexivity|]. split; reflexivity.
Qed.

Section Buckets.
Context `{T : Types}.
Variable DEBUG : bool.
Variable MaturityDelay : BlockHeight.

(** C6 (amended): for a block at height H, before its diffs are
    committed the bucket for H + MaturityDelay is created when applying,
    and the bucket for H when reverting with H > MaturityDelay; after the
    commit the bucket for H is destroyed when applying with
    H > MaturityDelay, and the bucket for H + MaturityDelay when
    reverting.  With the sanity checks on ([build.DEBUG]) the destroyed
    bucket is asserted to be empty, so that no non-empty bucket is ever
    destroyed. *)
Theorem bucket_lifecycle (d : DB) (pb : processedBlock) :
  createUpcomingDelayedOutputMaps MaturityDelay d pb DiffApply
    = createDSCOBucket d (height_add (Height pb) MaturityDelay)
  /\ createUpcomingDelayedOutputMaps MaturityDelay d pb DiffRevert
     = (if MaturityDelay <? Height pb then createDSCOBucket d (Height pb)
        else Ret (d, None))
  /\ deleteObsoleteDelayedOutputMaps true MaturityDelay d pb DiffApply
     = (if MaturityDelay <? Height pb then
          if lenDelayedSiacoinOutputsHeight d (Height pb) =? 0
          then Ret (rmDelayedSiacoinOutputs d (Height pb))
          else Panic errDeletingNonEmptyDelayedMap
        else Ret d)
  /\ deleteObsoleteDelayedOutputMaps true MaturityDelay d pb DiffRevert
     = (if lenDelayedSiacoinOutputsHeight d (height_add (Height pb) MaturityDelay) =? 0
        then Ret (rmDelayedSiacoinOutputs d (height_add (Height pb) MaturityDelay))
        else Panic errDeletingNonEmptyDelayedMap)
  /\ (forall dir d' h bucket,
        deleteObsoleteDelayedOutputMaps true MaturityDelay d pb dir = Ret d' ->
        DelayedSiacoinOutputs d !! h = Some bucket ->
        DelayedSiacoinOutputs d' !! h = None ->
        bucket = ∅)
  /\ (forall dir d',
        commitDiffSet DEBUG MaturityDelay d pb dir = Ret (d', None) ->
        exists d1 d2 r d3,
          createUpcomingDelayedOutputMaps MaturityDelay d pb dir = Ret (d1, None)
          /\ commitNodeDiffs DEBUG d1 pb dir = Ret (d2, r)
          /\ deleteObsoleteDelayedOutputMaps DEBUG MaturityDelay d2 pb dir = Ret d3
          /\ updateCurrentPath DEBUG d3 pb dir = Ret d').
Proof.
  split; [reflexivity|]. split; [reflexivity|].
  split.
  { unfold deleteObsoleteDelayedOutputMaps. simpl.
    destruct (MaturityDelay <? Height pb); [|reflexivity].
    destruct (_ =? 0); reflexivity. }
  split.
  { unfold deleteObsoleteDelayedOutputMaps. simpl.
    destruct (_ =? 0); reflexivity. }
  split.
  { intros dir d' h bucket Hdel Hin Hout.
    assert (Hempty : forall k, lenDelayedSiacoinOutputsHeight d k = 0 ->
              DelayedSiacoinOutputs (rmDelayedSiacoinOutputs d k) !! h = None ->
              bucket = ∅).
    { intros k Hlen Hk. unfold rmDelayedSiacoinOutputs in Hk. simpl in Hk.
      destruct (decide (k = h)) as [->|Hne].
      - unfold lenDelayedSiacoinOutputsHeight in Hlen. rewrite Hin in Hlen.
        apply map_size_empty_inv. lia.
      - rewrite lookup_delete_ne in Hk by exact Hne. congruence. }
    unfold deleteObsoleteDelayedOutputMaps in Hdel. simpl in Hdel.
    destruct dir; simpl in Hdel.
    - destruct (MaturityDelay <? Height pb).
      + destruct (lenDelayedSiacoinOutputsHeight d (Height pb) =? 0) eqn:Hlen;
          simpl in Hdel; [|discriminate].
        inversion Hdel; subst d'. apply N.eqb_eq in Hlen. eapply Hempty; eassumption.
      + inversion Hdel; subst d'. congruence.
    - destruct (lenDelayedSiacoinOutputsHeight d _ =? 0) eqn:Hlen;
        simpl in Hdel; [|discriminate].
      inversion Hdel; subst d'. apply N.eqb_eq in Hlen. eapply Hempty; eassumption. }
  intros dir d'. unfold commitDiffSet.
  destruct (commitDiffSetSanity DEBUG d pb dir) as [[]|e]; [|discriminate].
  unfold Update at 1.
  destruct (createUpcomingDelayedOutputMaps MaturityDelay d pb dir)
    as [[d1 [e1|]]|e1] eqn:H1; simpl; try discriminate.
  destruct (commitNodeDiffs DEBUG d1 pb dir) as [[d2 r]|e2] eqn:H2; [|discriminate].
  destruct (deleteObsoleteDelayedOutputMaps DEBUG MaturityDelay d2 pb dir)
    as [d3|e3] eqn:H3; [|discriminate].
  destruct (updateCurrentPath DEBUG d3 pb dir) as [d4|e4] eqn:H4; [|discriminate].
  intros H. inversion H; subst d4. exists d1, d2, r, d3. auto.
Qed.
End Buckets.

Lemma bucket_lifecycle_witness :
  exists d1 d2 r d3,
    createUpcomingDelayedOutputMaps 3 Ex.atHeight4 Ex.maturing DiffApply = Ret (d1, None)
    /\ commitNodeDiffs true d1 Ex.maturing DiffApply = Ret (d2, r)
    /\ deleteObsoleteDelayedOutputMaps true 3 d2 Ex.maturing DiffApply = Ret d3
    /\ updateCurrentPath true d3 Ex.maturing DiffApply
       = Ret (setBlockPath {[ 0 := 6; 1 := 7; 2 := 8; 3 := 9; 4 := 10; 5 := 15 ]}
                (setSiafundPool
                   (setDelayedSiacoinOutputs {[ 8 := {[ 9 := 60 ]} ]}
                      (setSiacoinOutputs {[ 7 := 50 ]} Ex.atHeight4)) 120)).
Proof.
  apply (proj2 (proj2 (proj2 (proj2 (proj2
           (bucket_lifecycle true 3 Ex.atHeight4 Ex.maturing))))) DiffApply).
  reflexivity.
Defined.

(** C6 as stated fails when [build.DEBUG] is off: applying a block of
    height 5 destroys the bucket of height 5 although it still holds the
    delayed output 7. *)
Lemma bucket_lifecycle_counterexample :
  exists d',
    deleteObsoleteDelayedOutputMaps false 3 Ex.atHeight4 Ex.maturing DiffApply = Ret d'
    /\ DelayedSiacoinOutputs Ex.atHeight4 !! 5 = Some {[ 7 := 50 ]}
    /\ DelayedSiacoinOutputs d' !! 5 = None.
Proof.
  eexists. split; [reflexivity|]. split; reflexivity.
Qed.

(** ** Generating the diffs of a block *)

Section Generate.
Context `{T : Types}.
Variable DEBUG : bool.
Variable MaturityDelay : BlockHeight.
Variable validTxTransaction : DB -> Transaction -> outcome (DB * option error).
Variable applyTransaction :
  DB -> processedBlock -> Transaction -> outcome (DB * processedBlock * option error).
Variable applyMaturedSiacoinOutputs :
  DB -> processedBlock -> outcome (DB * processedBlock * option error).
Variable applyMaintenance :
  DB -> processedBlock -> outcome (DB * processedBlock * option error).
Variable consensusSetHash : DB -> N.

Local Abbreviation procTx :=
  (processTransaction DEBUG MaturityDelay validTxTransaction applyTransaction
     applyMaturedSiacoinOutputs).
Local Abbreviation forTxns :=
  (forTransactions DEBUG MaturityDelay validTxTransaction applyTransaction
     applyMaturedSiacoinOutputs).
Local Abbreviation genApply :=
  (generateAndApplyDiff DEBUG MaturityDelay validTxTransaction applyTransaction
     applyMaturedSiacoinOutputs applyMaintenance consensusSetHash).

Lemma processTransaction_Next_dosBlocks txn cs pb cs' pb' :
  procTx txn cs pb = Ret (cs', pb', Next) -> dosBlocks cs' = dosBlocks cs.
Proof.
  unfold processTransaction, Update, UpdateCapturing.
  destruct (validTxTransaction (db cs) txn) as [[d1 [e|]]|e]; [| |discriminate].
  - destruct (applyMaturedSiacoinOutputs (db cs) pb) as [[[d2 pb2] [e2|]]|e2];
      try discriminate.
    destruct (commitDiffSet _ _ _ _ _) as [[d3 r]|e3]; discriminate.
  - destruct (applyTransaction d1 pb txn) as [[[d2 pb2] [e2|]]|e2]; try discriminate.
    intros H. inversion H. reflexivity.
Qed.

Lemma forTransactions_Next_dosBlocks txns cs pb cs' pb' :
  forTxns txns cs pb = Ret (cs', pb', Next) -> dosBlocks cs' = dosBlocks cs.
Proof.
  revert cs pb. induction txns as [|txn txns IH]; intros cs pb; simpl.
  - intros H. inversion H. reflexivity.
  - destruct (procTx txn cs pb) as [[[cs1 pb1] [|r]]|e] eqn:Hp;
      try discriminate.
    intros H. apply IH in H. apply processTransaction_Next_dosBlocks in Hp. congruence.
Qed.

(** The loop runs past a prefix of transactions that all fall through. *)
Lemma forTransactions_app pre post cs pb cs1 pb1 :
  forTxns pre cs pb = Ret (cs1, pb1, Next) ->
  forTxns (pre ++ post) cs pb = forTxns post cs1 pb1.
Proof.
  revert cs pb. induction pre as [|txn pre IH]; intros cs pb; simpl.
  - intros H. inversion H. reflexivity.
  - destruct (procTx txn cs pb) as [[[cs2 pb2] [|r]]|e]; try discriminate.
    apply IH.
Qed.

(** [generateAndApplyDiff] up to the transaction at which the loop
    returns. *)
Lemma generateAndApplyDiff_returns_at cs pb pre txn post d1 cs1 pb1 cs2 pb2 r :
  (DEBUG = true -> Parent pb = currentBlockID (db cs)) ->
  Transactions (pbBlock pb) = pre ++ txn :: post ->
  Update (pointToNewBlock MaturityDelay pb) (db cs) = Ret (d1, None) ->
  forTxns pre (setDB d1 cs) (setDiffsGenerated true pb) = Ret (cs1, pb1, Next) ->
  procTx txn cs1 pb1 = Ret (cs2, pb2, Return r) ->
  genApply cs pb = Ret (cs2, pb2, r).
Proof.
  intros Hpar Htxns Hpoint Hpre Htxn. unfold generateAndApplyDiff.
  replace (DEBUG && negb (bool_decide (Parent pb = currentBlockID (db cs)))) with false.
  2:{ destruct DEBUG; [|reflexivity]. rewrite bool_decide_eq_true_2 by auto.
      reflexivity. }
  rewrite Hpoint. simpl. rewrite Htxns.
  rewrite (forTransactions_app _ _ _ _ _ _ Hpre). simpl. rewrite Htxn. reflexivity.
Qed.

(** C10: when a transaction passes validation and [applyTransaction]
    returns an error, [generateAndApplyDiff] returns that error at once:
    the database is the one validation left, with the effects of the
    transactions applied before (no [commitDiffSet] in the revert
    direction), and the set of known-invalid blocks is unchanged. *)
Theorem apply_error_returns_without_rollback
    cs pb pre txn post d1 cs1 pb1 dv d2 pb2 err :
  (DEBUG = true -> Parent pb = currentBlockID (db cs)) ->
  Transactions (pbBlock pb) = pre ++ txn :: post ->
  Update (pointToNewBlock MaturityDelay pb) (db cs) = Ret (d1, None) ->
  forTxns pre (setDB d1 cs) (setDiffsGenerated true pb) = Ret (cs1, pb1, Next) ->
  validTxTransaction (db cs1) txn = Ret (dv, None) ->
  applyTransaction dv pb1 txn = Ret (d2, pb2, Some err) ->
  genApply cs pb = Ret ({| db := dv; dosBlocks := dosBlocks cs |}, pb2, Some err).
Proof.
  intros Hpar Htxns Hpoint Hpre Hvalid Happly.
  apply (generateAndApplyDiff_returns_at cs pb pre txn post d1 cs1 pb1); auto.
  unfold processTransaction, Update, UpdateCapturing. rewrite Hvalid, Happly.
  unfold setDB. rewrite (forTransactions_Next_dosBlocks _ _ _ _ _ Hpre). reflexivity.
Qed.

(** The revert that follows a failed validation.  The block was put on the
    path at the next free height and its upcoming bucket was created by
    [generateAndApplyDiff]; the diffs recorded on the node, committed to
    that storage, give the storage the transactions and the maintenance
    left, up to the drained bucket of the block's height, which the
    maintenance dropped.  Then [commitDiffSet] in the revert direction
    restores the storage the block was submitted to. *)
Lemma revert_after_generation (d d1 d2 : DB) (pb pbm : processedBlock) :
  Height pb = N.of_nat (size (BlockPath d)) ->
  BlockPath d !! Height pb = None ->
  DelayedSiacoinOutputs d !! height_add (Height pb) MaturityDelay = None ->
  Update (pointToNewBlock MaturityDelay pb) d = Ret (d1, None) ->
  Height pbm = Height pb ->
  ID (pbBlock pbm) = ID (pbBlock pb) ->
  (DEBUG = true -> DiffsGenerated pbm = true) ->
  diffsConsistent DEBUG (categoryOrder pbm DiffApply) DiffApply d1 ->
  commitNodeDiffsTx DEBUG pbm DiffApply d1 = Ret (d2, None) ->
  (MaturityDelay < Height pb -> DelayedSiacoinOutputs d2 !! Height pb = Some ∅) ->
  commitDiffSet DEBUG MaturityDelay
    (if MaturityDelay <? Height pb then rmDelayedSiacoinOutputs d2 (Height pb) else d2)
    pbm DiffRevert
  = Ret (d, None).
Proof.
  intros Hheight Hfree Hfresh Hpoint Hh Hid Hgen Hcons Hcommit Hbucket.
  assert (Hd1 : d1 = setDelayedSiacoinOutputs
                       (<[height_add (Height pb) MaturityDelay := ∅]>
                          (DelayedSiacoinOutputs d))
                       (setBlockPath (<[Height pb := ID (pbBlock pb)]> (BlockPath d)) d)).
  { unfold Update, pointToNewBlock, createDSCOBucket in Hpoint. simpl in Hpoint.
    rewrite Hfresh in Hpoint. inversion Hpoint. reflexivity. }
  destruct (commitNodeDiffsTx_undo DEBUG pbm d1 Hcons) as (d2' & Hc' & Hp2 & Hm2 & Hback).
  rewrite Hcommit in Hc'. inversion Hc'; subst d2'. clear Hc'.
  assert (Hp1 : BlockPath d1 = <[Height pb := ID (pbBlock pb)]> (BlockPath d))
    by (rewrite Hd1; reflexivity).
  set (dm := if MaturityDelay <? Height pb
             then rmDelayedSiacoinOutputs d2 (Height pb) else d2).
  assert (Hpm : BlockPath dm = <[N.of_nat (size (BlockPath d)) := ID (pbBlock pbm)]>
                                 (BlockPath d)).
  { rewrite Hid, <- Hheight, <- Hp1, <- Hp2. unfold dm.
    destruct (MaturityDelay <? Height pb); reflexivity. }
  unfold commitDiffSet.
  rewrite (sanity_revert_after_push DEBUG d pbm Hgen) by
    (try exact Hpm; rewrite <- Hheight; exact Hfree).
  assert (Hup : Update (fun tx => createUpcomingDelayedOutputMaps MaturityDelay tx pbm
                                    DiffRevert) dm = Ret (d2, None)).
  { unfold Update, createUpcomingDelayedOutputMaps, dm. simpl. rewrite Hh.
    destruct (MaturityDelay <? Height pb) eqn:Hlt.
    - apply N.ltb_lt in Hlt. specialize (Hbucket Hlt).
      unfold createDSCOBucket. simpl. rewrite lookup_delete_eq.
      rewrite insert_delete_id by exact Hbucket. destruct d2; reflexivity.
    - reflexivity. }
  rewrite Hup. unfold commitNodeDiffs, Update.
  replace d2 with (setBlockPath (BlockPath d2) d2) at 1 by (destruct d2; reflexivity).
  rewrite Hback.
  unfold deleteObsoleteDelayedOutputMaps. simpl. rewrite Hh.
  unfold lenDelayedSiacoinOutputsHeight, updateCurrentPath, popPath,
    rmDelayedSiacoinOutputs, setBlockPath, setDelayedSiacoinOutputs.
  rewrite Hp2. rewrite Hd1.
  unfold setBlockPath, setDelayedSiacoinOutputs.
  cbn [BlockPath DelayedSiacoinOutputs SiacoinOutputs FileContracts SiafundOutputs
       SiafundPool BlockMap].
  rewrite lookup_insert_eq, map_size_empty. simpl. rewrite andb_false_r.
  cbn [BlockPath DelayedSiacoinOutputs SiacoinOutputs FileContracts SiafundOutputs
       SiafundPool BlockMap].
  rewrite Hheight in *. rewrite pushed_tip by exact Hfree.
  rewrite !delete_insert_id by assumption. destruct d; reflexivity.
Qed.

(** C1 (amended): for a block whose transaction fails validation after
    the transactions before it were validated and applied,
    [generateAndApplyDiff] first applies the maturity maintenance alone.
    When that returns an error, the two errors are returned combined and
    nothing is reverted or recorded.  Otherwise the node is committed with
    [commitDiffSet] in the revert direction, whose returned error is
    dropped, the block's identifier is added to the known-invalid set and
    the validation error is returned.  The storage is then identical to the
    one before the block was submitted when the block was put on the path
    at the next free height, its upcoming bucket did not exist yet, and the
    transactions and the maintenance did to the storage what the diffs they
    recorded on the node say (every diff consistent with the storage), the
    maintenance dropping the drained bucket of the block's height. *)
Theorem invalid_transaction_rolls_back cs pb pre txn post d1 cs1 pb1 dv err :
  (DEBUG = true -> Parent pb = currentBlockID (db cs)) ->
  Transactions (pbBlock pb) = pre ++ txn :: post ->
  Update (pointToNewBlock MaturityDelay pb) (db cs) = Ret (d1, None) ->
  forTxns pre (setDB d1 cs) (setDiffsGenerated true pb) = Ret (cs1, pb1, Next) ->
  validTxTransaction (db cs1) txn = Ret (dv, Some err) ->
  genApply cs pb
  = match applyMaturedSiacoinOutputs (db cs1) pb1 with
    | Panic e => Panic e
    | Ret (_, pb2, Some updateErr) =>
        Ret ({| db := db cs1; dosBlocks := dosBlocks cs |}, pb2,
             Some (updateErr ++ " and " ++ err)%string)
    | Ret (dm, pbm, None) =>
        match commitDiffSet DEBUG MaturityDelay dm pbm DiffRevert with
        | Panic e => Panic e
        | Ret (d3, _) =>
            Ret ({| db := d3; dosBlocks := {[ ID (pbBlock pbm) ]} ∪ dosBlocks cs |},
                 pbm, Some err)
        end
    end
  /\ forall dm pbm d2,
       applyMaturedSiacoinOutputs (db cs1) pb1 = Ret (dm, pbm, None) ->
       Height pb = N.of_nat (size (BlockPath (db cs))) ->
       BlockPath (db cs) !! Height pb = None ->
       DelayedSiacoinOutputs (db cs) !! height_add (Height pb) MaturityDelay = None ->
       Height pbm = Height pb ->
       ID (pbBlock pbm) = ID (pbBlock pb) ->
       (DEBUG = true -> DiffsGenerated pbm = true) ->
       diffsConsistent DEBUG (categoryOrder pbm DiffApply) DiffApply d1 ->
       commitNodeDiffsTx DEBUG pbm DiffApply d1 = Ret (d2, None) ->
       (MaturityDelay < Height pb -> DelayedSiacoinOutputs d2 !! Height pb = Some ∅) ->
       dm = (if MaturityDelay <? Height pb
             then rmDelayedSiacoinOutputs d2 (Height pb) else d2) ->
       genApply cs pb
       = Ret ({| db := db cs; dosBlocks := {[ ID (pbBlock pbm) ]} ∪ dosBlocks cs |},
              pbm, Some err).
Proof.
  intros Hpar Htxns Hpoint Hpre Hvalid.
  pose proof (forTransactions_Next_dosBlocks _ _ _ _ _ Hpre) as Hdos. simpl in Hdos.
  assert (Hgen : forall cs2 pb2 r,
             procTx txn cs1 pb1 = Ret (cs2, pb2, Return r) ->
             genApply cs pb = Ret (cs2, pb2, r)).
  { intros cs2 pb2 r.
    apply (generateAndApplyDiff_returns_at cs pb pre txn post d1 cs1 pb1); auto. }
  assert (Hproc : procTx txn cs1 pb1
                  = match applyMaturedSiacoinOutputs (db cs1) pb1 with
                    | Panic e => Panic e
                    | Ret (_, pb2, Some updateErr) =>
                        Ret ({| db := db cs1; dosBlocks := dosBlocks cs |}, pb2,
                             Return (Some (updateErr ++ " and " ++ err)%string))
                    | Ret (dm, pbm, None) =>
                        match commitDiffSet DEBUG MaturityDelay dm pbm DiffRevert with
                        | Panic e => Panic e
                        | Ret (d3, _) =>
                            Ret ({| db := d3;
                                    dosBlocks := {[ ID (pbBlock pbm) ]} ∪ dosBlocks cs |},
                                 pbm, Return (Some err))
                        end
                    end).
  { unfold processTransaction, Update, UpdateCapturing. rewrite Hvalid.
    destruct (applyMaturedSiacoinOutputs (db cs1) pb1) as [[[dm pbm] [ue|]]|e];
      try reflexivity.
    - unfold setDB. rewrite Hdos. reflexivity.
    - rewrite Hdos. reflexivity. }
  split.
  - destruct (applyMaturedSiacoinOutputs (db cs1) pb1) as [[[dm pbm] [ue|]]|e] eqn:Hm.
    + apply Hgen. exact Hproc.
    + destruct (commitDiffSet DEBUG MaturityDelay dm pbm DiffRevert)
        as [[d3 r3]|e3] eqn:Hrev.
      * apply Hgen. exact Hproc.
      * unfold generateAndApplyDiff.
        replace (DEBUG && negb (bool_decide (Parent pb = currentBlockID (db cs))))
          with false.
        2:{ destruct DEBUG; [|reflexivity]. rewrite bool_decide_eq_true_2 by auto.
            reflexivity. }
        rewrite Hpoint. simpl. rewrite Htxns.
        rewrite (forTransactions_app _ _ _ _ _ _ Hpre). simpl. rewrite Hproc.
        reflexivity.
    + unfold generateAndApplyDiff.
      replace (DEBUG && negb (bool_decide (Parent pb = currentBlockID (db cs))))
        with false.
      2:{ destruct DEBUG; [|reflexivity]. rewrite bool_decide_eq_true_2 by auto.
          reflexivity. }
      rewrite Hpoint. simpl. rewrite Htxns.
      rewrite (forTransactions_app _ _ _ _ _ _ Hpre). simpl. rewrite Hproc.
      reflexivity.
  - intros dm pbm d2 Hm Hheight Hfree Hfresh Hh Hid Hgenerated Hcons Hcommit Hbucket Hdm.
    apply Hgen. rewrite Hproc, Hm. subst dm.
    rewrite (revert_after_generation (db cs) d1 d2 pb pbm); auto.
Qed.

(** C8 (amended): with the sanity checks on ([build.DEBUG]), committing
    a diff set requires that the node's diffs were generated, that the
    block stored for the node's parent is the current chain tip when
    applying, and that the node itself is the current chain tip when
    reverting; [generateAndApplyDiff] requires that the block's declared
    parent is the current chain tip.  A call that violates one of these
    panics: it does not return an error. *)
Theorem out_of_order_calls_panic :
  (forall (d : DB) pb dir r,
      commitDiffSet true MaturityDelay d pb dir = Ret r ->
      DiffsGenerated pb = true
      /\ match dir with
         | DiffApply =>
             exists parent, BlockMap d !! Parent pb = Some parent
                            /\ ID (pbBlock parent) = currentBlockID d
         | DiffRevert => ID (pbBlock pb) = currentBlockID d
         end)
  /\ (forall (d : DB) pb dir,
        DiffsGenerated pb = false
        \/ (dir = DiffApply
            /\ forall parent, BlockMap d !! Parent pb = Some parent ->
                              ID (pbBlock parent) <> currentBlockID d)
        \/ (dir = DiffRevert /\ ID (pbBlock pb) <> currentBlockID d) ->
        exists e, commitDiffSet true MaturityDelay d pb dir = Panic e)
  /\ (forall cs pb r,
        generateAndApplyDiff true MaturityDelay validTxTransaction applyTransaction
          applyMaturedSiacoinOutputs applyMaintenance consensusSetHash cs pb = Ret r ->
        Parent pb = currentBlockID (db cs))
  /\ (forall cs pb,
        Parent pb <> currentBlockID (db cs) ->
        generateAndApplyDiff true MaturityDelay validTxTransaction applyTransaction
          applyMaturedSiacoinOutputs applyMaintenance consensusSetHash cs pb
        = Panic errInvalidSuccessor).
Proof.
  assert (Hsan : forall (d : DB) pb dir,
             commitDiffSetSanity true d pb dir = Ret () ->
             DiffsGenerated pb = true
             /\ match dir with
                | DiffApply =>
                    exists parent, BlockMap d !! Parent pb = Some parent
                                   /\ ID (pbBlock parent) = currentBlockID d
                | DiffRevert => ID (pbBlock pb) = currentBlockID d
                end).
  { intros d pb dir. unfold commitDiffSetSanity, getBlockMap.
    destruct (DiffsGenerated pb); simpl; [|discriminate].
    destruct dir; simpl.
    - destruct (BlockMap d !! Parent pb) as [parent|]; [|discriminate].
      case_decide; [|discriminate]. intros _. split; [reflexivity|]. eauto.
    - case_decide; [|discriminate]. auto. }
  split; [|split; [|split]].
  - intros d pb dir r. unfold commitDiffSet.
    destruct (commitDiffSetSanity true d pb dir) as [[]|e] eqn:Hs; [|discriminate].
    intros _. apply Hsan, Hs.
  - intros d pb dir Hbad. unfold commitDiffSet.
    destruct (commitDiffSetSanity true d pb dir) as [[]|e] eqn:Hs;
      [|eexists; reflexivity].
    exfalso. apply Hsan in Hs as [Hgen Hdir].
    destruct Hbad as [Hng|[[-> Hnp]|[-> Hnt]]].
    + congruence.
    + destruct Hdir as (parent & Hl & Hid). exact (Hnp _ Hl Hid).
    + exact (Hnt Hdir).
  - intros cs pb r. unfold generateAndApplyDiff. simpl.
    case_bool_decide; simpl; [auto|discriminate].
  - intros cs pb Hne. unfold generateAndApplyDiff. simpl.
    rewrite bool_decide_eq_false_2 by exact Hne. reflexivity.
Qed.
End Generate.

Lemma apply_error_returns_without_rollback_witness :
  exists dv pb2,
    generateAndApplyDiff true 3 Ex.validTx Ex.applyTx Ex.noMaintenance Ex.noMaintenance
      Ex.noHash Ex.atGenesisSet Ex.failingSecond
    = Ret ({| db := dv; dosBlocks := dosBlocks Ex.atGenesisSet |}, pb2,
           Some "cannot apply transaction"%string)
    /\ SiacoinOutputs dv !! 1 = Some 50
    /\ BlockPath dv !! 1 = Some 11
    /\ SiacoinOutputDiffs pb2 = [Ex.scod DiffApply 1 50].
Proof.
  eexists. eexists. split.
  - eapply (apply_error_returns_without_rollback true 3 Ex.validTx Ex.applyTx
              Ex.noMaintenance Ex.noMaintenance Ex.noHash
              Ex.atGenesisSet Ex.failingSecond [1] 2 []).
    + intros _. reflexivity.
    + reflexivity.
    + reflexivity.
    + reflexivity.
    + reflexivity.
    + reflexivity.
  - split; [reflexivity|]. split; reflexivity.
Defined.

Lemma invalid_transaction_rolls_back_witness :
  generateAndApplyDiff true 3 Ex.validTx Ex.applyTx Ex.maturingMaintenance Ex.noMaintenance
    Ex.noHash Ex.atHeight4Set Ex.invalidAtFive
  = Ret ({| db := Ex.atHeight4; dosBlocks := {[ 15 ]} ∪ ∅ |}, Ex.invalidAtFiveNode,
         Some "invalid transaction"%string).
Proof.
  refine (proj2 (invalid_transaction_rolls_back true 3 Ex.validTx Ex.applyTx
                   Ex.maturingMaintenance Ex.noMaintenance Ex.noHash
                   Ex.atHeight4Set Ex.invalidAtFive [1] 0 [] _ _ _ _
                   "invalid transaction"%string _ _ _ _ _) _
            Ex.invalidAtFiveNode _ _ _ _ _ _ _ _ _ _ _ _).
  - intros _. reflexivity.
  - reflexivity.
  - reflexivity.
  - reflexivity.
  - reflexivity.
  - reflexivity.
  - reflexivity.
  - reflexivity.
  - reflexivity.
  - reflexivity.
  - reflexivity.
  - intros _. reflexivity.
  - vm_compute. repeat split; discriminate.
  - reflexivity.
  - intros _. reflexivity.
  - reflexivity.
Defined.

(** C1 as stated fails in two ways.  When the maintenance itself returns
    an error, the error returned is the combination of the two, the block
    is not recorded as invalid and the storage keeps the path entry, the
    bucket and the output of the first transaction.  When the maintenance
    succeeds and keeps the drained bucket of the block's height, the revert
    returns [errCreatingExistingUpcomingMap], which is dropped: the block
    is recorded, the validation error is returned, and the storage is not
    the one the block was submitted to. *)
Lemma invalid_transaction_rolls_back_counterexample :
  (exists d2 pb2,
     generateAndApplyDiff true 3 Ex.validTx Ex.applyTx Ex.failingMaintenance
       Ex.noMaintenance Ex.noHash Ex.atGenesisSet Ex.invalidSecond
     = Ret ({| db := d2; dosBlocks := ∅ |}, pb2,
            Some "maintenance failed and invalid transaction"%string)
     /\ SiacoinOutputs d2 !! 1 = Some 50
     /\ SiacoinOutputs Ex.atGenesis !! 1 = None
     /\ BlockPath d2 !! 1 = Some 11
     /\ d2 <> Ex.atGenesis)
  /\ (exists d3,
        generateAndApplyDiff true 3 Ex.validTx Ex.applyTx Ex.maturingKeeping
          Ex.noMaintenance Ex.noHash Ex.atHeight4Set Ex.invalidAtFive
        = Ret ({| db := d3; dosBlocks := {[ 15 ]} ∪ ∅ |}, Ex.invalidAtFiveNode,
               Some "invalid transaction"%string)
        /\ commitDiffSet true 3 d3 Ex.invalidAtFiveNode DiffRevert
           = Ret (d3, Some errCreatingExistingUpcomingMap)
        /\ SiacoinOutputs d3 !! 1 = Some 50
        /\ SiacoinOutputs Ex.atHeight4 !! 1 = None
        /\ BlockPath d3 !! 5 = Some 15
        /\ d3 <> Ex.atHeight4).
Proof.
  split.
  - eexists. eexists. split; [reflexivity|]. split; [reflexivity|].
    split; [reflexivity|]. split; [reflexivity|].
    intros H. apply (f_equal (fun tx => SiacoinOutputs tx !! 1)) in H.
    vm_compute in H. discriminate H.
  - eexists. split; [reflexivity|]. split; [reflexivity|].
    split; [reflexivity|]. split; [reflexivity|]. split; [reflexivity|].
    intros H. apply (f_equal (fun tx => SiacoinOutputs tx !! 1)) in H.
    vm_compute in H. discriminate H.
Qed.

Lemma out_of_order_calls_panic_witness :
  exists e, commitDiffSet true 3 Ex.atGenesis Ex.stray DiffRevert = Panic e.
Proof.
  apply (proj1 (proj2 (out_of_order_calls_panic 3 Ex.validTx Ex.applyTx
                         Ex.noMaintenance Ex.noMaintenance Ex.noHash))
           Ex.atGenesis Ex.stray DiffRevert).
  left. reflexivity.
Defined.

(** C8 as stated fails when [build.DEBUG] is off: a node whose diffs were
    not generated and that is not the tip is reverted, and a block whose
    parent is not the tip is processed; both calls return [nil]. *)
Lemma out_of_order_calls_panic_counterexample :
  DiffsGenerated Ex.stray = false
  /\ ID (pbBlock Ex.stray) <> currentBlockID Ex.atGenesis
  /\ Parent Ex.stray <> currentBlockID Ex.atGenesis
  /\ (exists d', commitDiffSet false 3 Ex.atGenesis Ex.stray DiffRevert = Ret (d', None))
  /\ (exists cs' pb',
        generateAndApplyDiff false 3 Ex.validTx Ex.applyTx Ex.noMaintenance
          Ex.noMaintenance Ex.noHash Ex.atGenesisSet Ex.stray = Ret (cs', pb', None)).
Proof.
  split; [reflexivity|]. split; [vm_compute; discriminate|].
  split; [vm_compute; discriminate|]. split.
  - eexists. reflexivity.
  - eexists. eexists. reflexivity.
Qed.

(** * Further properties of the engine *)

(** ** A block reverted and applied again *)

Section RevertApply.
Context `{T : Types}.
Variable DEBUG : bool.
Variable MaturityDelay : BlockHeight.

(** The five categories committed one after the other in a direction, from
    a storage they are consistent with, are undone by committing them in the
    same category order, each reversed, in the opposite direction. *)
Lemma categories_undo (dir : DiffDirection)
    (scods : list SiacoinOutputDiff) (fcds : list FileContractDiff)
    (sfods : list SiafundOutputDiff) (dscods : list DelayedSiacoinOutputDiff)
    (sfpds : list SiafundPoolDiff) (tx : DB) :
  diffsConsistent DEBUG
    ((SCOD <$> scods) ++ (FCD <$> fcds) ++ (SFOD <$> sfods)
     ++ (DSCOD <$> dscods) ++ (SFPD <$> sfpds)) dir tx ->
  exists tx',
    forRange (commitDiff DEBUG dir)
      ((SCOD <$> scods) ++ (FCD <$> fcds) ++ (SFOD <$> sfods)
       ++ (DSCOD <$> dscods) ++ (SFPD <$> sfpds)) tx = Ret (tx', None)
    /\ BlockPath tx' = BlockPath tx
    /\ BlockMap tx' = BlockMap tx
    /\ forall p,
         forRange (commitDiff DEBUG (opposite dir))
           ((SCOD <$> rev scods) ++ (FCD <$> rev fcds) ++ (SFOD <$> rev sfods)
            ++ (DSCOD <$> rev dscods) ++ (SFPD <$> rev sfpds)) (setBlockPath p tx')
         = Ret (setBlockPath p tx, None).
Proof.
  intros H.
  apply consistentRun_app in H as [HS H].
  destruct (scod_segment _ _ _ _ HS) as (aS & HSrun & HSback).
  specialize (H _ (HSrun tx eq_refl)).
  apply consistentRun_app in H as [HF H].
  destruct (fcd_segment _ _ _ _ HF) as (aF & HFrun & HFback).
  specialize (H _ (HFrun _ eq_refl)).
  apply consistentRun_app in H as [HU H].
  destruct (sfod_segment _ _ _ _ HU) as (aU & HUrun & HUback).
  specialize (H _ (HUrun _ eq_refl)).
  apply consistentRun_app in H as [HD HP].
  destruct (dscod_segment _ _ _ _ HD) as (aD & HDrun & HDback).
  specialize (HP _ (HDrun _ eq_refl)).
  destruct (sfpd_segment _ _ _ _ HP) as (aP & HPrun & HPback).
  eexists. split; [|split; [|split]].
  - rewrite forRange_app. unfold andThen. rewrite (HSrun _ eq_refl).
    rewrite forRange_app. unfold andThen. rewrite (HFrun _ eq_refl).
    rewrite forRange_app. unfold andThen. rewrite (HUrun _ eq_refl).
    rewrite forRange_app. unfold andThen. rewrite (HDrun _ eq_refl).
    rewrite (HPrun _ eq_refl). reflexivity.
  - reflexivity.
  - reflexivity.
  - intros p.
    rewrite forRange_app. unfold andThen. rewrite HSback by reflexivity.
    rewrite forRange_app. unfold andThen. rewrite HFback by reflexivity.
    rewrite forRange_app. unfold andThen. rewrite HUback by reflexivity.
    rewrite forRange_app. unfold andThen. rewrite HDback by reflexivity.
    rewrite HPback by reflexivity. destruct tx. reflexivity.
Qed.

(** The sanity checks read the path and the block map only. *)
Lemma commitDiffSetSanity_reads (d d' : DB) (pb : processedBlock) (dir : DiffDirection) :
  BlockPath d' = BlockPath d -> BlockMap d' = BlockMap d ->
  commitDiffSetSanity DEBUG d' pb dir = commitDiffSetSanity DEBUG d pb dir.
Proof.
  intros Hp Hm. unfold commitDiffSetSanity, getBlockMap, currentBlockID.
  rewrite Hp, Hm. reflexivity.
Qed.

Lemma popped_size (p : gmap N N) (bid : BlockID) :
  p !! N.pred (N.of_nat (size p)) = Some bid ->
  N.of_nat (size (delete (N.pred (N.of_nat (size p))) p)) = N.pred (N.of_nat (size p)).
Proof.
  intros H. rewrite map_size_delete, H. lia.
Qed.

(** Reverting a node with [commitDiffSet] and applying it again restores
    the storage, when the node reverts faithfully. *)
Theorem block_revert_then_apply (d s1 : DB) (pb : processedBlock) :
  commitDiffSet DEBUG MaturityDelay d pb DiffRevert = Ret (s1, None) ->
  revertsFaithfully DEBUG MaturityDelay d pb ->
  commitDiffSet DEBUG MaturityDelay s1 pb DiffApply = Ret (d, None).
Proof.
  intros Hrevert (d1 & d2 & Hcreate & Hcons & Hcommit & Hbucket & Htip & Hsanity).
  unfold categoryOrder in Hcons. simpl in Hcons.
  destruct (categories_undo _ _ _ _ _ _ _ Hcons) as (d2' & Hc' & Hp2 & Hm2 & Hback).
  rewrite commitNodeDiffsTx_forRange in Hcommit.
  unfold categoryOrder in Hcommit. simpl in Hcommit.
  rewrite Hcommit in Hc'. inversion Hc'; subst d2'. clear Hc'.
  rewrite !rev_involutive in Hback.
  assert (Hd1 : BlockPath d1 = BlockPath d /\ BlockMap d1 = BlockMap d
                /\ (if MaturityDelay <? Height pb
                    then DelayedSiacoinOutputs d !! Height pb = None
                         /\ d1 = setDelayedSiacoinOutputs
                                   (<[Height pb := ∅]> (DelayedSiacoinOutputs d)) d
                    else d1 = d)).
  { unfold createUpcomingDelayedOutputMaps in Hcreate. simpl in Hcreate.
    destruct (MaturityDelay <? Height pb).
    - apply createDSCOBucket_Ret in Hcreate as [Hf ->]. auto.
    - inversion Hcreate. auto. }
  destruct Hd1 as (Hp1 & Hm1 & Hd1).
  unfold commitDiffSet in Hrevert.
  destruct (commitDiffSetSanity DEBUG d pb DiffRevert) as [[]|e] eqn:Hsan; [|discriminate].
  unfold Update at 1 in Hrevert. rewrite Hcreate in Hrevert.
  unfold commitNodeDiffs, Update in Hrevert.
  rewrite commitNodeDiffsTx_forRange in Hrevert.
  unfold categoryOrder in Hrevert. simpl in Hrevert. rewrite Hcommit in Hrevert.
  unfold deleteObsoleteDelayedOutputMaps in Hrevert. simpl in Hrevert.
  unfold lenDelayedSiacoinOutputsHeight in Hrevert. rewrite Hbucket in Hrevert.
  rewrite map_size_empty in Hrevert. simpl in Hrevert. rewrite andb_false_r in Hrevert.
  unfold updateCurrentPath, popPath in Hrevert. simpl in Hrevert.
  rewrite Hp2, Hp1 in Hrevert. inversion Hrevert as [Hs1]. clear Hrevert.
  set (k := N.pred (N.of_nat (size (BlockPath d)))) in *.
  unfold commitDiffSet.
  rewrite (commitDiffSetSanity_reads (fst (popPath d)));
    [|reflexivity|simpl; rewrite Hm2, Hm1; reflexivity].
  rewrite Hsanity.
  assert (Hup : Update (fun tx => createUpcomingDelayedOutputMaps MaturityDelay tx pb DiffApply)
                  (setBlockPath (delete k (BlockPath d))
                     (rmDelayedSiacoinOutputs d2 (height_add (Height pb) MaturityDelay)))
                = Ret (setBlockPath (delete k (BlockPath d)) d2, None)).
  { unfold Update, createUpcomingDelayedOutputMaps, createDSCOBucket. simpl.
    rewrite lookup_delete_eq. rewrite insert_delete_id by exact Hbucket.
    destruct d2; reflexivity. }
  rewrite Hup. unfold commitNodeDiffs, Update.
  rewrite commitNodeDiffsTx_forRange. unfold categoryOrder. simpl.
  rewrite Hback.
  unfold deleteObsoleteDelayedOutputMaps, updateCurrentPath, pushPath. simpl.
  destruct (MaturityDelay <? Height pb).
  - destruct Hd1 as [Hfresh ->].
    unfold lenDelayedSiacoinOutputsHeight, rmDelayedSiacoinOutputs,
      setBlockPath, setDelayedSiacoinOutputs.
    cbn [BlockPath DelayedSiacoinOutputs SiacoinOutputs FileContracts SiafundOutputs
         SiafundPool BlockMap].
    rewrite lookup_insert_eq, map_size_empty. simpl. rewrite andb_false_r.
    cbn [BlockPath DelayedSiacoinOutputs SiacoinOutputs FileContracts SiafundOutputs
         SiafundPool BlockMap].
    unfold k. rewrite (popped_size _ _ Htip).
    rewrite delete_insert_id by exact Hfresh.
    rewrite insert_delete_id by exact Htip. destruct d; reflexivity.
  - subst d1. unfold setBlockPath.
    cbn [BlockPath DelayedSiacoinOutputs SiacoinOutputs FileContracts SiafundOutputs
         SiafundPool BlockMap].
    unfold k. rewrite (popped_size _ _ Htip).
    rewrite insert_delete_id by exact Htip. destruct d; reflexivity.
Qed.
End RevertApply.

Lemma maturing_revertsFaithfully : revertsFaithfully true 3 Ex.afterMaturing Ex.maturing.
Proof.
  unfold revertsFaithfully. eexists. eexists.
  split; [reflexivity|]. split; [|split; [reflexivity|split; [|split]]].
  - vm_compute. repeat split; discriminate.
  - reflexivity.
  - reflexivity.
  - reflexivity.
Defined.

Lemma block_revert_then_apply_witness :
  exists s1, commitDiffSet true 3 Ex.afterMaturing Ex.maturing DiffRevert = Ret (s1, None)
             /\ SiacoinOutputs s1 !! 7 = None
             /\ commitDiffSet true 3 s1 Ex.maturing DiffApply = Ret (Ex.afterMaturing, None).
Proof.
  eexists. split; [reflexivity|]. split; [reflexivity|].
  apply (block_revert_then_apply true 3 Ex.afterMaturing _ Ex.maturing).
  - reflexivity.
  - exact maturing_revertsFaithfully.
Defined.

(** ** What a commit leaves alone, and how it fails *)

Section Frame.
Context `{T : Types}.
Variable DEBUG : bool.
Variable MaturityDelay : BlockHeight.

Lemma commitDiff_frame (dir : DiffDirection) (d : Diff) (tx tx' : DB) (r : option error) :
  commitDiff DEBUG dir d tx = Ret (tx', r) ->
  BlockPath tx' = BlockPath tx /\ BlockMap tx' = BlockMap tx.
Proof.
  destruct d as [x|x|x|x|x]; simpl.
  - rewrite commitSiacoinOutputDiff_field. unfold liftField.
    destruct (entryCommit _ _ _ _) as [[a r']|e]; [|discriminate].
    intros H. inversion H. auto.
  - rewrite commitFileContractDiff_field. unfold liftField.
    destruct (entryCommit _ _ _ _) as [[a r']|e]; [|discriminate].
    intros H. inversion H. auto.
  - rewrite commitSiafundOutputDiff_field. unfold liftField.
    destruct (entryCommit _ _ _ _) as [[a r']|e]; [|discriminate].
    intros H. inversion H. auto.
  - rewrite commitDelayedSiacoinOutputDiff_field. unfold liftField.
    destruct (bucketCommit _ _ _ _ _) as [[a r']|e]; [|discriminate].
    intros H. inversion H. auto.
  - rewrite commitSiafundPoolDiff_field. unfold liftField.
    destruct (poolCommit _ _ _ _) as [[a r']|e]; [|discriminate].
    intros H. inversion H. auto.
Qed.

Lemma commitNodeDiffs_frame (d d' : DB) (pb : processedBlock) (dir : DiffDirection)
    (r : option error) :
  commitNodeDiffs DEBUG d pb dir = Ret (d', r) ->
  BlockPath d' = BlockPath d /\ BlockMap d' = BlockMap d.
Proof.
  rewrite commitNodeDiffs_Update. unfold Update.
  destruct (commitNodeDiffsTx DEBUG pb dir d) as [[d1 [e|]]|e] eqn:Htx; intros H;
    inversion H; subst; auto.
  rewrite commitNodeDiffsTx_forRange in Htx. revert Htx.
  apply (forRange_preserves
           (fun a b : DB => BlockPath b = BlockPath a /\ BlockMap b = BlockMap a)).
  - auto.
  - intros s1 s2 s3 [H1 H2] [H3 H4]. split; congruence.
  - intros x s s' r'. apply commitDiff_frame.
Qed.

Lemma createUpcoming_frame (d d' : DB) (pb : processedBlock) (dir : DiffDirection)
    (r : option error) :
  createUpcomingDelayedOutputMaps MaturityDelay d pb dir = Ret (d', r) ->
  BlockPath d' = BlockPath d /\ BlockMap d' = BlockMap d.
Proof.
  unfold createUpcomingDelayedOutputMaps, createDSCOBucket.
  repeat match goal with
         | |- context [if ?b then _ else _] => destruct b
         | |- context [match ?o with Some _ => _ | None => _ end] => destruct o
         end; intros H; inversion H; auto.
Qed.

Lemma deleteObsolete_frame (d d' : DB) (pb : processedBlock) (dir : DiffDirection) :
  deleteObsoleteDelayedOutputMaps DEBUG MaturityDelay d pb dir = Ret d' ->
  BlockPath d' = BlockPath d /\ BlockMap d' = BlockMap d.
Proof.
  unfold deleteObsoleteDelayedOutputMaps.
  repeat match goal with
         | |- context [if ?b then _ else _] => destruct b
         end; intros H; inversion H; auto.
Qed.

(** The steps of [commitDiffSet], when it runs to its end. *)
Lemma commitDiffSet_steps (d d' : DB) (pb : processedBlock) (dir : DiffDirection) :
  commitDiffSet DEBUG MaturityDelay d pb dir = Ret (d', None) ->
  exists d1 d2 r d3,
    createUpcomingDelayedOutputMaps MaturityDelay d pb dir = Ret (d1, None)
    /\ commitNodeDiffs DEBUG d1 pb dir = Ret (d2, r)
    /\ deleteObsoleteDelayedOutputMaps DEBUG MaturityDelay d2 pb dir = Ret d3
    /\ updateCurrentPath DEBUG d3 pb dir = Ret d'.
Proof.
  unfold commitDiffSet.
  destruct (commitDiffSetSanity DEBUG d pb dir) as [[]|e]; [|discriminate].
  unfold Update at 1.
  destruct (createUpcomingDelayedOutputMaps MaturityDelay d pb dir)
    as [[d1 [e1|]]|e1] eqn:H1; simpl; try discriminate.
  destruct (commitNodeDiffs DEBUG d1 pb dir) as [[d2 r]|e2] eqn:H2; [|discriminate].
  destruct (deleteObsoleteDelayedOutputMaps DEBUG MaturityDelay d2 pb dir)
    as [d3|e3] eqn:H3; [|discriminate].
  destruct (updateCurrentPath DEBUG d3 pb dir) as [d4|e4] eqn:H4; [|discriminate].
  intros H. inversion H; subst d4. exists d1, d2, r, d3. auto.
Qed.

(** Committing a diff set never writes the block map, in either direction
    and whatever the outcome of the node's diffs; committing the node's
    diffs writes neither the block map nor the path. *)
Theorem commit_leaves_block_index (d d' : DB) (pb : processedBlock) (dir : DiffDirection)
    (r : option error) :
  (commitNodeDiffs DEBUG d pb dir = Ret (d', r) ->
   BlockPath d' = BlockPath d /\ BlockMap d' = BlockMap d)
  /\ (commitDiffSet DEBUG MaturityDelay d pb dir = Ret (d', r) -> BlockMap d' = BlockMap d).
Proof.
  split; [apply commitNodeDiffs_frame|].
  destruct r as [e|].
  - unfold commitDiffSet.
    destruct (commitDiffSetSanity DEBUG d pb dir) as [[]|e0]; [|discriminate].
    unfold Update at 1.
    destruct (createUpcomingDelayedOutputMaps MaturityDelay d pb dir)
      as [[d1 [e1|]]|e1]; simpl; try discriminate.
    + intros H. inversion H. reflexivity.
    + destruct (commitNodeDiffs DEBUG d1 pb dir) as [[d2 r]|e2]; [|discriminate].
      destruct (deleteObsoleteDelayedOutputMaps DEBUG MaturityDelay d2 pb dir)
        as [d3|e3]; [|discriminate].
      destruct (updateCurrentPath DEBUG d3 pb dir) as [d4|e4]; discriminate.
  - intros H. apply commitDiffSet_steps in H as (d1 & d2 & r & d3 & H1 & H2 & H3 & H4).
    apply createUpcoming_frame in H1 as [_ H1].
    apply commitNodeDiffs_frame in H2 as [_ H2].
    apply deleteObsolete_frame in H3 as [_ H3].
    assert (H5 : BlockMap d' = BlockMap d3).
    { unfold updateCurrentPath, pushPath, popPath in H4.
      destruct dir; simpl in H4; inversion H4; reflexivity. }
    congruence.
Qed.

(** After a diff set is applied to a path with no entry above its tip, the
    path is one entry longer and the node's block is the current block;
    after a diff set is reverted from a path whose tip entry exists, the
    path is one entry shorter and every other entry is unchanged. *)
Theorem commitDiffSet_moves_tip (d d' : DB) (pb : processedBlock) :
  (commitDiffSet DEBUG MaturityDelay d pb DiffApply = Ret (d', None) ->
   BlockPath d !! N.of_nat (size (BlockPath d)) = None ->
   BlockPath d' = <[N.of_nat (size (BlockPath d)) := ID (pbBlock pb)]> (BlockPath d)
   /\ size (BlockPath d') = S (size (BlockPath d))
   /\ currentBlockID d' = ID (pbBlock pb))
  /\ (commitDiffSet DEBUG MaturityDelay d pb DiffRevert = Ret (d', None) ->
      is_Some (BlockPath d !! N.pred (N.of_nat (size (BlockPath d)))) ->
      BlockPath d' = delete (N.pred (N.of_nat (size (BlockPath d)))) (BlockPath d)
      /\ S (size (BlockPath d')) = size (BlockPath d)).
Proof.
  split; intros H Hp;
    apply commitDiffSet_steps in H as (d1 & d2 & r & d3 & H1 & H2 & H3 & H4);
    apply createUpcoming_frame in H1 as [H1 _];
    apply commitNodeDiffs_frame in H2 as [H2 _];
    apply deleteObsolete_frame in H3 as [H3 _];
    assert (Hp3 : BlockPath d3 = BlockPath d) by congruence;
    unfold updateCurrentPath, pushPath, popPath in H4; simpl in H4;
    rewrite Hp3 in H4; inversion H4; subst d'; simpl.
  - split; [reflexivity|]. split.
    + apply map_size_insert_None, Hp.
    + unfold currentBlockID. simpl. rewrite pushed_tip by exact Hp.
      rewrite lookup_insert_eq. reflexivity.
  - split; [reflexivity|]. destruct Hp as [bid Hp].
    rewrite map_size_delete, Hp.
    destruct (size (BlockPath d)) eqn:Hsz; [|reflexivity].
    exfalso. apply map_size_empty_inv in Hsz. rewrite Hsz in Hp.
    rewrite lookup_empty in Hp. discriminate.
Qed.


(** A panic of a commit is not dropped the way an error is: when a diff of
    the node panics after the diffs before it were committed, so do
    [commitNodeDiffs] and, once the sanity checks and the bucket creation
    have passed, [commitDiffSet]. *)
Theorem commit_panic_propagates (d d1 tx1 : DB) (pb : processedBlock)
    (dir : DiffDirection) (pre post : list Diff) (x : Diff) (e : error) :
  categoryOrder pb dir = pre ++ x :: post ->
  forRange (commitDiff DEBUG dir) pre d1 = Ret (tx1, None) ->
  commitDiff DEBUG dir x tx1 = Panic e ->
  commitNodeDiffs DEBUG d1 pb dir = Panic e
  /\ (commitDiffSetSanity DEBUG d pb dir = Ret () ->
      createUpcomingDelayedOutputMaps MaturityDelay d pb dir = Ret (d1, None) ->
      commitDiffSet DEBUG MaturityDelay d pb dir = Panic e).
Proof.
  intros Hord Hpre Hx.
  assert (Hn : commitNodeDiffs DEBUG d1 pb dir = Panic e).
  { rewrite commitNodeDiffs_Update. unfold Update.
    rewrite commitNodeDiffsTx_forRange, Hord, forRange_app. unfold andThen.
    rewrite Hpre. simpl. unfold andThen. rewrite Hx. reflexivity. }
  split; [exact Hn|].
  intros Hsan Hcreate. unfold commitDiffSet, Update. rewrite Hsan, Hcreate, Hn.
  reflexivity.
Qed.
End Frame.

Lemma commit_leaves_block_index_witness :
  BlockMap Ex.afterMaturing = BlockMap Ex.atHeight4.
Proof.
  apply (proj2 (commit_leaves_block_index true 3 Ex.atHeight4 Ex.afterMaturing
                  Ex.maturing DiffApply None)).
  reflexivity.
Defined.

Lemma commitDiffSet_moves_tip_witness :
  BlockPath Ex.afterMaturing = <[5 := 15]> (BlockPath Ex.atHeight4)
  /\ size (BlockPath Ex.afterMaturing) = 6%nat
  /\ currentBlockID Ex.afterMaturing = 15.
Proof.
  apply (proj1 (commitDiffSet_moves_tip true 3 Ex.atHeight4 Ex.afterMaturing Ex.maturing)).
  - reflexivity.
  - reflexivity.
Defined.


Lemma commit_panic_propagates_witness :
  commitNodeDiffs true (setDelayedSiacoinOutputs {[ 4 := ∅ ]} Ex.holding)
    Ex.repeating DiffApply = Panic errRepeatInsert
  /\ commitDiffSet true 3 Ex.holding Ex.repeating DiffApply = Panic errRepeatInsert.
Proof.
  destruct (commit_panic_propagates true 3 Ex.holding
              (setDelayedSiacoinOutputs {[ 4 := ∅ ]} Ex.holding)
              (setDelayedSiacoinOutputs {[ 4 := ∅ ]} Ex.holding)
              Ex.repeating DiffApply [] [] (SCOD (Ex.scod DiffApply 1 5)) errRepeatInsert)
    as [Hn Hs].
  - reflexivity.
  - reflexivity.
  - reflexivity.
  - split; [exact Hn|]. apply Hs; reflexivity.
Defined.

(** ** The pool when blocks are reverted *)

Section PoolRevert.
Context `{T : Types}.
Variable MaturityDelay : BlockHeight.

Lemma commitDiff_revert_pool (d : Diff) (tx tx' : DB) (r : option error) :
  commitDiff true DiffRevert d tx = Ret (tx', r) -> SiafundPool tx' <= SiafundPool tx.
Proof.
  destruct d as [x|x|x|x|x]; simpl.
  - rewrite commitSiacoinOutputDiff_field. unfold liftField.
    destruct (entryCommit _ _ _ _) as [[a r']|e]; [|discriminate].
    intros H. inversion H. simpl. lia.
  - rewrite commitFileContractDiff_field. unfold liftField.
    destruct (entryCommit _ _ _ _) as [[a r']|e]; [|discriminate].
    intros H. inversion H. simpl. lia.
  - rewrite commitSiafundOutputDiff_field. unfold liftField.
    destruct (entryCommit _ _ _ _) as [[a r']|e]; [|discriminate].
    intros H. inversion H. simpl. lia.
  - rewrite commitDelayedSiacoinOutputDiff_field. unfold liftField.
    destruct (bucketCommit _ _ _ _ _) as [[a r']|e]; [|discriminate].
    intros H. inversion H. simpl. lia.
  - intros H. apply commitSiafundPoolDiff_checked in H
      as (_ & Hle & _ & Hpool & Htx'). unfold getSiafundPool in Hpool.
    subst tx'. simpl. lia.
Qed.

(** With the sanity checks on, reverting a block with [commitDiffSet]
    never raises the siafund pool, whether the call returns [nil] or an
    error. *)
Theorem revert_lowers_pool (d d' : DB) (pb : processedBlock) (r : option error) :
  commitDiffSet true MaturityDelay d pb DiffRevert = Ret (d', r) ->
  SiafundPool d' <= SiafundPool d.
Proof.
  unfold commitDiffSet.
  destruct (commitDiffSetSanity true d pb DiffRevert) as [[]|e]; [|discriminate].
  unfold Update at 1.
  destruct (createUpcomingDelayedOutputMaps MaturityDelay d pb DiffRevert)
    as [[d1 [e1|]]|e1] eqn:H1; simpl; try discriminate.
  { intros H. inversion H. lia. }
  assert (Hd1 : SiafundPool d1 = SiafundPool d).
  { unfold createUpcomingDelayedOutputMaps, createDSCOBucket in H1. simpl in H1.
    destruct (MaturityDelay <? Height pb).
    - destruct (DelayedSiacoinOutputs d !! Height pb); inversion H1. reflexivity.
    - inversion H1. reflexivity. }
  assert (Hrun : forall d2 r2, commitNodeDiffs true d1 pb DiffRevert = Ret (d2, r2) ->
                               SiafundPool d2 <= SiafundPool d1).
  { intros d2 r2. rewrite commitNodeDiffs_Update. unfold Update.
    destruct (commitNodeDiffsTx true pb DiffRevert d1) as [[d3 [e3|]]|e3] eqn:Htx;
      intros H; inversion H; subst; [lia|].
    rewrite commitNodeDiffsTx_forRange in Htx. revert Htx.
    apply (forRange_preserves (fun a b : DB => SiafundPool b <= SiafundPool a)).
    - intros; lia.
    - intros; lia.
    - intros x s s' r'. apply commitDiff_revert_pool. }
  destruct (commitNodeDiffs true d1 pb DiffRevert) as [[d2 r2]|e2] eqn:H2; [|discriminate].
  specialize (Hrun _ _ eq_refl).
  unfold deleteObsoleteDelayedOutputMaps, updateCurrentPath, popPath. simpl.
  destruct (negb _); [discriminate|]. intros H. inversion H. simpl. lia.
Qed.
End PoolRevert.

Lemma revert_lowers_pool_witness :
  exists s1, commitDiffSet true 3 Ex.afterMaturing Ex.maturing DiffRevert = Ret (s1, None)
             /\ SiafundPool s1 = 100
             /\ SiafundPool s1 <= SiafundPool Ex.afterMaturing.
Proof.
  eexists. split; [reflexivity|]. split; [reflexivity|].
  apply (revert_lowers_pool 3 Ex.afterMaturing _ Ex.maturing None). reflexivity.
Defined.

(** ** A block that is processed to the end *)

Section GenerateToEnd.
Context `{T : Types}.
Variable DEBUG : bool.
Variable MaturityDelay : BlockHeight.
Variable validTxTransaction : DB -> Transaction -> outcome (DB * option error).
Variable applyTransaction :
  DB -> processedBlock -> Transaction -> outcome (DB * processedBlock * option error).
Variable applyMaturedSiacoinOutputs :
  DB -> processedBlock -> outcome (DB * processedBlock * option error).
Variable applyMaintenance :
  DB -> processedBlock -> outcome (DB * processedBlock * option error).
Variable consensusSetHash : DB -> N.

Local Abbreviation forTxns :=
  (forTransactions DEBUG MaturityDelay validTxTransaction applyTransaction
     applyMaturedSiacoinOutputs).
Local Abbreviation genApply :=
  (generateAndApplyDiff DEBUG MaturityDelay validTxTransaction applyTransaction
     applyMaturedSiacoinOutputs applyMaintenance consensusSetHash).


(** When every transaction is validated and applied and the maintenance
    returns an error, [generateAndApplyDiff] returns that error with the
    storage maintenance left: the node is not written to the block map,
    nothing is reverted and the block is not recorded as invalid. *)
Theorem generateAndApplyDiff_maintenance_error cs pb d1 cs2 pb2 d3 pb3 err :
  (DEBUG = true -> Parent pb = currentBlockID (db cs)) ->
  Update (pointToNewBlock MaturityDelay pb) (db cs) = Ret (d1, None) ->
  forTxns (Transactions (pbBlock pb)) (setDB d1 cs) (setDiffsGenerated true pb)
    = Ret (cs2, pb2, Next) ->
  applyMaintenance (db cs2) pb2 = Ret (d3, pb3, Some err) ->
  genApply cs pb = Ret ({| db := d3; dosBlocks := dosBlocks cs |}, pb3, Some err).
Proof.
  intros Hpar Hpoint Hloop Hmaint.
  unfold generateAndApplyDiff.
  replace (DEBUG && negb (bool_decide (Parent pb = currentBlockID (db cs)))) with false.
  2:{ destruct DEBUG; [|reflexivity]. rewrite bool_decide_eq_true_2 by auto.
      reflexivity. }
  rewrite Hpoint. simpl. rewrite Hloop, Hmaint. unfold setDB.
  rewrite (forTransactions_Next_dosBlocks _ _ _ _ _ _ _ _ _ _ Hloop). reflexivity.
Qed.
End GenerateToEnd.


Lemma generateAndApplyDiff_maintenance_error_witness :
  exists d3 pb3,
    generateAndApplyDiff true 3 Ex.validTx Ex.applyTx Ex.noMaintenance
      Ex.failingMaintenance Ex.noHash Ex.atGenesisSet Ex.validTwo
    = Ret ({| db := d3; dosBlocks := dosBlocks Ex.atGenesisSet |}, pb3,
           Some "maintenance failed"%string)
    /\ BlockMap d3 !! 11 = None
    /\ SiacoinOutputs d3 = {[ 1 := 50; 3 := 50 ]}.
Proof.
  eexists. eexists. split.
  - eapply (generateAndApplyDiff_maintenance_error true 3 Ex.validTx Ex.applyTx
              Ex.noMaintenance Ex.failingMaintenance Ex.noHash
              Ex.atGenesisSet Ex.validTwo).
    + intros _. reflexivity.
    + reflexivity.
    + reflexivity.
    + reflexivity.
  - split; reflexivity.
Defined.

(** ** Where the failures of a commit come from *)

Lemma forRange_Panic {St A : Type} (body : A -> stfn St) (xs : list A) (s : St) (e : error) :
  forRange body xs s = Panic e -> exists x s', x ∈ xs /\ body x s' = Panic e.
Proof.
  revert s. induction xs as [|x xs IH]; intros s; simpl.
  - discriminate.
  - unfold andThen. destruct (body x s) as [[s1 [e1|]]|e1] eqn:Hx.
    + discriminate.
    + intros H. destruct (IH _ H) as (y & s' & Hy & Hb).
      exists y, s'. split; [right; exact Hy|exact Hb].
    + intros H. inversion H; subst. exists x, s. split; [left|exact Hx].
Qed.

Lemma forRange_error {St A : Type} (body : A -> stfn St) (xs : list A) (s s1 : St)
    (e : error) :
  forRange body xs s = Ret (s1, Some e) ->
  exists x s', x ∈ xs /\ body x s' = Ret (s1, Some e).
Proof.
  revert s. induction xs as [|x xs IH]; intros s; simpl.
  - discriminate.
  - unfold andThen. destruct (body x s) as [[s2 [e1|]]|e1] eqn:Hx.
    + intros H. inversion H; subst. exists x, s. split; [left|exact Hx].
    + intros H. destruct (IH _ H) as (y & s' & Hy & Hb).
      exists y, s'. split; [right; exact Hy|exact Hb].
    + discriminate.
Qed.

Section Failures.
Context `{T : Types}.
Variable DEBUG : bool.
Variable MaturityDelay : BlockHeight.

(** Every failure of [commitNodeDiffs] is the failure of the commit of one
    of the node's diffs: a panic is the panic of a diff and a returned error
    is the error of a diff; in particular the countdown loops of the revert
    direction never index a collection out of its range. *)
Theorem commitNodeDiffs_fails_with_a_diff (d : DB) (pb : processedBlock)
    (dir : DiffDirection) (e : error) :
  (commitNodeDiffs DEBUG d pb dir = Panic e ->
   exists x tx, x ∈ categoryOrder pb dir /\ commitDiff DEBUG dir x tx = Panic e)
  /\ (forall d', commitNodeDiffs DEBUG d pb dir = Ret (d', Some e) ->
        exists x tx tx', x ∈ categoryOrder pb dir
                         /\ commitDiff DEBUG dir x tx = Ret (tx', Some e)).
Proof.
  split.
  - rewrite commitNodeDiffs_Update. unfold Update.
    destruct (commitNodeDiffsTx DEBUG pb dir d) as [[d1 [e1|]]|e1] eqn:Htx;
      try discriminate.
    intros H. inversion H; subst e1.
    rewrite commitNodeDiffsTx_forRange in Htx. apply forRange_Panic in Htx. exact Htx.
  - intros d'. rewrite commitNodeDiffs_Update. unfold Update.
    destruct (commitNodeDiffsTx DEBUG pb dir d) as [[d1 [e1|]]|e1] eqn:Htx;
      try discriminate.
    intros H. inversion H; subst e1.
    rewrite commitNodeDiffsTx_forRange in Htx. apply forRange_error in Htx.
    destruct Htx as (x & s' & Hx & Hb). eauto.
Qed.

(** ** Buckets are created and destroyed around the diffs only *)




(** ** A chain of blocks applied and rewound *)

Lemma revertBlocks_app (pbs pbs' : list processedBlock) (d d1 : DB) :
  revertBlocks DEBUG MaturityDelay pbs d = Ret d1 ->
  revertBlocks DEBUG MaturityDelay (pbs ++ pbs') d
  = revertBlocks DEBUG MaturityDelay pbs' d1.
Proof.
  revert d. induction pbs as [|pb pbs IH]; intros d; simpl.
  - intros H. inversion H. reflexivity.
  - destruct (commitDiffSet DEBUG MaturityDelay d pb DiffRevert) as [[d2 r]|e];
      [|discriminate].
    apply IH.
Qed.

(** A chain of blocks that applies faithfully, applied block after block
    and then reverted from the last block to the first, leaves the storage
    it started from. *)
Theorem chain_applied_then_rewound (pbs : list processedBlock) (d : DB) :
  chainFaithful DEBUG MaturityDelay pbs d ->
  exists d', applyBlocks DEBUG MaturityDelay pbs d = Ret d'
             /\ revertBlocks DEBUG MaturityDelay (rev pbs) d' = Ret d.
Proof.
  revert d. induction pbs as [|pb pbs IH]; intros d; simpl.
  - intros _. exists d. split; reflexivity.
  - intros [Hfaith Hrest].
    destruct (commitDiffSet DEBUG MaturityDelay d pb DiffApply) as [[d1 [e|]]|e] eqn:Hc;
      try contradiction.
    destruct (IH _ Hrest) as (d' & Happly & Hrevert).
    exists d'. split; [exact Happly|].
    rewrite (revertBlocks_app _ _ _ _ Hrevert). simpl.
    rewrite (commitDiffSet_apply_revert DEBUG MaturityDelay _ _ _ Hc Hfaith).
    reflexivity.
Qed.
End Failures.

Lemma commitNodeDiffs_fails_with_a_diff_witness :
  exists x tx, x ∈ categoryOrder Ex.repeating DiffApply
               /\ commitDiff true DiffApply x tx = Panic errRepeatInsert.
Proof.
  apply (proj1 (commitNodeDiffs_fails_with_a_diff true Ex.holding Ex.repeating
                  DiffApply errRepeatInsert)).
  reflexivity.
Defined.


Lemma chain_faithful : chainFaithful true 3 [Ex.chainOne; Ex.chainTwo] Ex.atGenesisIndexed.
Proof.
  split.
  - unfold appliesFaithfully. eexists. eexists.
    split; [reflexivity|]. split; [|split; [reflexivity|split]].
    + vm_compute. repeat split; discriminate.
    + intros H. vm_compute in H. discriminate H.
    + reflexivity.
  - simpl. split; [|exact I].
    unfold appliesFaithfully. eexists. eexists.
    split; [reflexivity|]. split; [|split; [reflexivity|split]].
    + vm_compute. repeat split; discriminate.
    + intros H. vm_compute in H. discriminate H.
    + reflexivity.
Defined.

Lemma chain_applied_then_rewound_witness :
  exists d', applyBlocks true 3 [Ex.chainOne; Ex.chainTwo] Ex.atGenesisIndexed = Ret d'
             /\ SiacoinOutputs d' = {[ 2 := 5 ]}
             /\ SiafundPool d' = 130
             /\ revertBlocks true 3 [Ex.chainTwo; Ex.chainOne] d' = Ret Ex.atGenesisIndexed.
Proof.
  destruct (chain_applied_then_rewound true 3 [Ex.chainOne; Ex.chainTwo]
              Ex.atGenesisIndexed chain_faithful) as (d' & Happly & Hrevert).
  exists d'. split; [exact Happly|].
  assert (Hd' : Ret d' = applyBlocks true 3 [Ex.chainOne; Ex.chainTwo] Ex.atGenesisIndexed)
    by (symmetry; exact Happly).
  vm_compute in Hd'. inversion Hd'; subst d'.
  split; [reflexivity|]. split; [reflexivity|]. exact Hrevert.
Defined.
